(** * PSRC household travel survey tutorial: the notebook's computations

    A shallow embedding of the code cells of [psrc_hts_tutorial.ipynb]:
    the cleaning cells (missing-timestamp drop, [travel_time_manual],
    the workday / two-hour filter), the adult filter, [mobility_metrics]
    and the radius of gyration ([rog], [rog_centroid_df]).

    Conventions.
    - A pandas table is the list of its rows, in index order.
    - A nullable string column is [option string]; [None] is pandas' NaN.
    - A string is a list of characters with code points below 256; the
      classes of the timestamp pattern ([\s], [\d], letters without case)
      are those of CPython on these characters.  Strings with characters
      above 255 are outside the model, and what is said of a string that
      does not parse is said of strings of ASCII characters.
    - A Python float that holds a duration or a coordinate is an exact
      rational ([Q]); distances returned by geopy and the root taken by
      [math.sqrt] are real numbers ([R]).  Two timestamps differ by a
      whole number of microseconds, so the comparison with 120 minutes is
      the same on rationals and on doubles.
    - A Python set is the list of its elements in the order they were
      added.  Python lists a set in hash order: on exact numbers the order
      changes neither the mean nor the radius ([rog_perm], [np_mean_perm]);
      on doubles it can change their last digit.
    - Python exceptions are the [Raise] results of a small error monad.
    - geopy is not part of the notebook: [geodesic_miles] is a parameter
      of [rog] and [rog_centroid_df]. *)

From Stdlib Require Import ZArith QArith Qabs Qround List String Ascii Bool.
From Stdlib Require Import Lia Lra Reals Qreals Permutation.
Import ListNotations.

(** ** Python values shared by the cells *)

Module Py.

Inductive exn : Type :=
| ValueError
| TypeError
| ZeroDivisionError
| OverflowError.

Inductive result (A : Type) : Type :=
| Ok (a : A)
| Raise (e : exn).
Arguments Ok {A} a.
Arguments Raise {A} e.

Definition bind {A B : Type} (m : result A) (k : A -> result B) : result B :=
  match m with
  | Ok a => k a
  | Raise e => Raise e
  end.

(** [try: return f() except: return None] *)
Definition try_or_None {A : Type} (m : result A) : option A :=
  match m with
  | Ok a => Some a
  | Raise _ => None
  end.

(** A list comprehension (or [DataFrame.apply]) whose body may raise:
    rows are visited in order and the first exception escapes. *)
Fixpoint for_each {A B : Type} (f : A -> result B) (l : list A)
  : result (list B) :=
  match l with
  | [] => Ok []
  | x :: l' =>
      bind (f x) (fun y => bind (for_each f l') (fun ys => Ok (y :: ys)))
  end.

(** [column == "literal"] and [column != "literal"] on a nullable string
    cell: NaN is equal to no string. *)
Definition str_eq (cell : option string) (lit : string) : bool :=
  match cell with
  | Some s => String.eqb s lit
  | None => false
  end.

Definition str_ne (cell : option string) (lit : string) : bool :=
  negb (str_eq cell lit).

Definition notna {A : Type} (cell : option A) : bool :=
  match cell with
  | Some _ => true
  | None => false
  end.

End Py.

Notation "x <- m ;; k" := (Py.bind m (fun x => k))
  (at level 61, m at next level, right associativity).

(** ** The trips table *)

Record trip : Type := mk_trip {
  trip_id : Z;
  household_id : Z;
  person_dim_id : Z;
  daynum : Z;
  survey_year : Z;
  age : option string;
  origin_purpose : option string;
  dest_purpose : option string;
  mode_simple : option string;
  trip_path_distance : option Q;
  arrival_time_string : option string;
  depart_time_string : option string;
  travel_time_calc : option Q
}.

Definition table : Type := list trip.

(** [trips_clean.loc[:, "travel_time_calc"] = ...] on one row. *)
Definition set_travel_time_calc (v : Q) (r : trip) : trip :=
  {| trip_id := trip_id r;
     household_id := household_id r;
     person_dim_id := person_dim_id r;
     daynum := daynum r;
     survey_year := survey_year r;
     age := age r;
     origin_purpose := origin_purpose r;
     dest_purpose := dest_purpose r;
     mode_simple := mode_simple r;
     trip_path_distance := trip_path_distance r;
     arrival_time_string := arrival_time_string r;
     depart_time_string := depart_time_string r;
     travel_time_calc := Some v |}.

(** ** [datetime.strptime] and datetime arithmetic, as the cleaning cell uses them *)

Module Strptime.

Import Py.
Local Open Scope Z_scope.

(** *** Characters *)

Definition code (c : ascii) : Z := Z.of_nat (nat_of_ascii c).

(** [\d], and the digits [int] reads: below 256 the decimal digits are
    "0" to "9". *)
Definition is_digit (c : ascii) : bool := (48 <=? code c) && (code c <=? 57).

Definition between (lo hi : ascii) (c : ascii) : bool :=
  (code lo <=? code c) && (code c <=? code hi).

(** [\s] on characters below 256: tab to carriage return, the four
    separators 28 to 31, the space, next line (133) and the no-break
    space (160). *)
Definition is_space (c : ascii) : bool :=
  ((9 <=? code c) && (code c <=? 13))
  || ((28 <=? code c) && (code c <=? 32))
  || (code c =? 133) || (code c =? 160).

Definition lower (c : ascii) : ascii :=
  if (65 <=? code c) && (code c <=? 90)
  then ascii_of_nat (nat_of_ascii c + 32)
  else c.

(** *** The fragment of regular expressions that [_strptime] builds *)

Inductive regex : Type :=
| Eps
| Lit (c : ascii)                          (* a literal, compared ignoring case *)
| Cls (p : ascii -> bool)                  (* a character class *)
| Seq (r1 r2 : regex)
| Alt (r1 r2 : regex)                      (* r1|r2, r1 tried first *)
| Plus (p : ascii -> bool)                 (* p+, greedy *)
| Rep (p : ascii -> bool) (lo hi : nat)    (* p{lo,hi}, greedy *)
| Group (name : ascii) (r : regex).        (* (?P<name>r) *)

Definition groupdict : Type := list (ascii * list ascii).

Fixpoint lookup (name : ascii) (g : groupdict) : list ascii :=
  match g with
  | [] => []
  | (n, v) :: g' => if Ascii.eqb n name then v else lookup name g'
  end.

Section Matcher.

Variable X : Type.

Fixpoint match_plus (p : ascii -> bool) (s : list ascii)
         (k : list ascii -> option X) : option X :=
  match s with
  | c :: s' =>
      if p c then
        match match_plus p s' k with
        | Some x => Some x
        | None => k s'
        end
      else None
  | [] => None
  end.

Fixpoint match_rep (p : ascii -> bool) (lo hi : nat) (s : list ascii)
         (k : list ascii -> option X) : option X :=
  let stop := match lo with O => k s | S _ => None end in
  match hi, s with
  | S hi', c :: s' =>
      if p c then
        match match_rep p (Nat.pred lo) hi' s' k with
        | Some x => Some x
        | None => stop
        end
      else stop
  | _, _ => stop
  end.

(** Backtracking matcher in continuation-passing style: [k] is the rest
    of the pattern; the first way to succeed wins, as in [re.match]. *)
Fixpoint rmatch (r : regex) (s : list ascii) (g : groupdict)
         (k : list ascii -> groupdict -> option X) : option X :=
  match r with
  | Eps => k s g
  | Lit c =>
      match s with
      | c' :: s' => if Ascii.eqb (lower c) (lower c') then k s' g else None
      | [] => None
      end
  | Cls p =>
      match s with
      | c' :: s' => if p c' then k s' g else None
      | [] => None
      end
  | Seq r1 r2 => rmatch r1 s g (fun s1 g1 => rmatch r2 s1 g1 k)
  | Alt r1 r2 =>
      match rmatch r1 s g k with
      | Some x => Some x
      | None => rmatch r2 s g k
      end
  | Plus p => match_plus p s (fun s' => k s' g)
  | Rep p lo hi => match_rep p lo hi s (fun s' => k s' g)
  | Group name r1 =>
      rmatch r1 s g
        (fun s1 g1 =>
           k s1 ((name, firstn (List.length s - List.length s1) s) :: g1))
  end.

End Matcher.

Arguments match_plus {X} p s k.
Arguments match_rep {X} p lo hi s k.
Arguments rmatch {X} r s g k.

(** [format_regex.match(data_string)]: the remaining input and the groups
    of the first match found. *)
Definition re_match (r : regex) (s : list ascii)
  : option (list ascii * groupdict) :=
  rmatch r s [] (fun s' g => Some (s', g)).

(** *** [TimeRE]: the directives of the notebook's format *)

Definition digit : regex := Cls is_digit.

Definition directive (d : ascii) : option regex :=
  if Ascii.eqb d "Y" then
    Some (Group "Y" (Seq digit (Seq digit (Seq digit digit))))
  else if Ascii.eqb d "m" then
    Some (Group "m" (Alt (Seq (Lit "1") (Cls (between "0" "2")))
                    (Alt (Seq (Lit "0") (Cls (between "1" "9")))
                         (Cls (between "1" "9")))))
  else if Ascii.eqb d "d" then
    Some (Group "d" (Alt (Seq (Lit "3") (Cls (between "0" "1")))
                    (Alt (Seq (Cls (between "1" "2")) digit)
                    (Alt (Seq (Lit "0") (Cls (between "1" "9")))
                    (Alt (Cls (between "1" "9"))
                         (Seq (Lit " ") (Cls (between "1" "9"))))))))
  else if Ascii.eqb d "H" then
    Some (Group "H" (Alt (Seq (Lit "2") (Cls (between "0" "3")))
                    (Alt (Seq (Cls (between "0" "1")) digit)
                         digit)))
  else if Ascii.eqb d "M" then
    Some (Group "M" (Alt (Seq (Cls (between "0" "5")) digit) digit))
  else if Ascii.eqb d "S" then
    Some (Group "S" (Alt (Seq (Lit "6") (Cls (between "0" "1")))
                    (Alt (Seq (Cls (between "0" "5")) digit)
                         digit)))
  else if Ascii.eqb d "f" then
    Some (Group "f" (Rep (between "0" "9") 1 6))
  else None.

(** [TimeRE.pattern]: a run of whitespace in the format becomes [\s+], a
    directive becomes its group, any other character stands for itself.
    [in_ws] tells that the previous character was whitespace too. *)
Fixpoint pattern (in_ws : bool) (format : list ascii) : option regex :=
  match format with
  | [] => Some Eps
  | c :: rest =>
      if Ascii.eqb c "%" then
        match rest with
        | d :: rest' =>
            match directive d, pattern false rest' with
            | Some r, Some r' => Some (Seq r r')
            | _, _ => None
            end
        | [] => None
        end
      else if is_space c then
        match pattern true rest with
        | Some r' => Some (if in_ws then r' else Seq (Plus is_space) r')
        | None => None
        end
      else
        match pattern false rest with
        | Some r' => Some (Seq (Lit c) r')
        | None => None
        end
  end.

(** *** Dates *)

Record datetime : Type := mk_datetime {
  year : Z;
  month : Z;
  day : Z;
  hour : Z;
  minute : Z;
  second : Z;
  microsecond : Z
}.

Definition MINYEAR : Z := 1.
Definition MAXYEAR : Z := 9999.

Definition _DAYS_IN_MONTH : list Z :=
  [-1; 31; 28; 31; 30; 31; 30; 31; 31; 30; 31; 30; 31].

Definition _DAYS_BEFORE_MONTH : list Z :=
  [-1; 0; 31; 59; 90; 120; 151; 181; 212; 243; 273; 304; 334].

Definition _is_leap (y : Z) : bool :=
  (y mod 4 =? 0) && (negb (y mod 100 =? 0) || (y mod 400 =? 0)).

Definition _days_before_year (y : Z) : Z :=
  let y1 := y - 1 in
  y1 * 365 + y1 / 4 - y1 / 100 + y1 / 400.

Definition _days_in_month (y m : Z) : Z :=
  if (m =? 2) && _is_leap y then 29
  else nth (Z.to_nat m) _DAYS_IN_MONTH 0.

Definition _days_before_month (y m : Z) : Z :=
  nth (Z.to_nat m) _DAYS_BEFORE_MONTH 0
  + (if (2 <? m) && _is_leap y then 1 else 0).

Definition _ymd2ord (y m d : Z) : Z :=
  _days_before_year y + _days_before_month y m + d.

Definition _check_date_fields (y m d : Z) : result unit :=
  if negb ((MINYEAR <=? y) && (y <=? MAXYEAR)) then Raise ValueError
  else if negb ((1 <=? m) && (m <=? 12)) then Raise ValueError
  else if negb ((1 <=? d) && (d <=? _days_in_month y m)) then Raise ValueError
  else Ok tt.

Definition _check_time_fields (h mi s us : Z) : result unit :=
  if negb ((0 <=? h) && (h <=? 23)) then Raise ValueError
  else if negb ((0 <=? mi) && (mi <=? 59)) then Raise ValueError
  else if negb ((0 <=? s) && (s <=? 59)) then Raise ValueError
  else if negb ((0 <=? us) && (us <=? 999999)) then Raise ValueError
  else Ok tt.

(** The constructor [datetime(year, month, day, hour, minute, second, us)]. *)
Definition datetime_new (y m d h mi s us : Z) : result datetime :=
  _ <- _check_date_fields y m d ;;
  _ <- _check_time_fields h mi s us ;;
  Ok (mk_datetime y m d h mi s us).

Definition toordinal (t : datetime) : Z := _ymd2ord (year t) (month t) (day t).

(** *** Parsing *)

(** [int(s)] on a matched group: decimal digits, blanks around them skipped. *)
Definition int (s : list ascii) : Z :=
  fold_left (fun acc c => if is_digit c then acc * 10 + (code c - 48) else acc)
            s 0.

(** [s += "0" * (6 - len(s))] *)
Definition pad_micro (s : list ascii) : list ascii :=
  s ++ repeat "0"%char (6 - List.length s)%nat.

Definition strptime (data_string : list ascii) (format : list ascii)
  : result datetime :=
  match pattern false format with
  | None => Raise ValueError          (* bad directive in format *)
  | Some format_regex =>
      match re_match format_regex data_string with
      | None => Raise ValueError      (* time data does not match format *)
      | Some (_ :: _, _) => Raise ValueError   (* unconverted data remains *)
      | Some ([], found_dict) =>
          let y := int (lookup "Y" found_dict) in
          let m := int (lookup "m" found_dict) in
          let d := int (lookup "d" found_dict) in
          let h := int (lookup "H" found_dict) in
          let mi := int (lookup "M" found_dict) in
          let s := int (lookup "S" found_dict) in
          let fraction := int (pad_micro (lookup "f" found_dict)) in
          (* the day of the year is computed through a [date] *)
          _ <- _check_date_fields y m d ;;
          datetime_new y m d h mi s fraction
      end
  end.

(** *** Durations *)

Record timedelta : Type := mk_timedelta {
  days : Z;
  seconds : Z;
  microseconds : Z
}.

(** [timedelta(days, seconds, microseconds)] on integers: three rounds of
    [divmod] carry microseconds into seconds and seconds into days. *)
Definition timedelta_new (days0 seconds0 microseconds0 : Z) : result timedelta :=
  let d := days0 in
  let d := d + seconds0 / 86400 in
  let s := seconds0 mod 86400 in
  let sec1 := microseconds0 / 1000000 in
  let us1 := microseconds0 mod 1000000 in
  let d := d + sec1 / 86400 in
  let s := s + sec1 mod 86400 in
  let sec2 := us1 / 1000000 in
  let us := us1 mod 1000000 in
  let s := s + sec2 in
  let d := d + s / 86400 in
  let s := s mod 86400 in
  if 999999999 <? Z.abs d then Raise OverflowError
  else Ok (mk_timedelta d s us).

(** [datetime.__sub__] for two naive datetimes. *)
Definition datetime_sub (a b : datetime) : result timedelta :=
  let days1 := toordinal a in
  let days2 := toordinal b in
  let secs1 := second a + minute a * 60 + hour a * 3600 in
  let secs2 := second b + minute b * 60 + hour b * 3600 in
  timedelta_new (days1 - days2) (secs1 - secs2) (microsecond a - microsecond b).

Definition timedelta_neg (t : timedelta) : result timedelta :=
  timedelta_new (- days t) (- seconds t) (- microseconds t).

Definition timedelta_abs (t : timedelta) : result timedelta :=
  if days t <? 0 then timedelta_neg t else Ok t.

Definition total_seconds (t : timedelta) : Q :=
  inject_Z ((days t * 86400 + seconds t) * 10 ^ 6 + microseconds t)
  / inject_Z (10 ^ 6).

(** Microseconds elapsed since the start of ordinal day 0. *)
Definition micros (t : datetime) : Z :=
  ((toordinal t * 86400 + hour t * 3600 + minute t * 60 + second t) * 1000000
   + microsecond t).

Definition total_micros (t : timedelta) : Z :=
  (days t * 86400 + seconds t) * 1000000 + microseconds t.

(** What the two constructors check. *)
Definition valid_datetime (t : datetime) : Prop :=
  1 <= year t <= 9999 /\ 1 <= month t <= 12 /\ 1 <= day t <= 31
  /\ 0 <= hour t <= 23 /\ 0 <= minute t <= 59 /\ 0 <= second t <= 59
  /\ 0 <= microsecond t <= 999999.

Definition normalized (t : timedelta) : Prop :=
  0 <= seconds t < 86400 /\ 0 <= microseconds t < 1000000.

Ltac destruct_ifs :=
  repeat match goal with
         | H : context [if ?b then _ else _] |- _ => destruct b eqn:?
         | |- context [if ?b then _ else _] => destruct b eqn:?
         end.

Ltac bool_to_Z :=
  repeat match goal with
         | H : negb _ = true |- _ => apply negb_true_iff in H
         | H : negb _ = false |- _ => apply negb_false_iff in H
         | H : _ && _ = true |- _ => apply andb_true_iff in H; destruct H
         | H : (_ <=? _) = true |- _ => apply Z.leb_le in H
         | H : (_ <? _) = true |- _ => apply Z.ltb_lt in H
         | H : (_ <? _) = false |- _ => apply Z.ltb_ge in H
         | H : (_ =? _) = true |- _ => apply Z.eqb_eq in H
         end.

Lemma days_in_month_le (y m : Z) : _days_in_month y m <= 31.
Proof.
  unfold _days_in_month.
  destruct ((m =? 2) && _is_leap y); [lia|].
  destruct (Z.to_nat m) as [|[|[|[|[|[|[|[|[|[|[|[|[|k]]]]]]]]]]]]];
    simpl; try lia.
  destruct k; simpl; lia.
Qed.

Lemma check_date_fields_Ok (y m d : Z) (u : unit) :
  _check_date_fields y m d = Ok u ->
  1 <= y <= 9999 /\ 1 <= m <= 12 /\ 1 <= d <= 31.
Proof.
  unfold _check_date_fields, MINYEAR, MAXYEAR. intro H.
  destruct_ifs; try discriminate. bool_to_Z.
  pose proof (days_in_month_le y m). lia.
Qed.

Lemma check_time_fields_Ok (h mi s us : Z) (u : unit) :
  _check_time_fields h mi s us = Ok u ->
  0 <= h <= 23 /\ 0 <= mi <= 59 /\ 0 <= s <= 59 /\ 0 <= us <= 999999.
Proof.
  unfold _check_time_fields. intro H.
  destruct_ifs; try discriminate. bool_to_Z. lia.
Qed.

Lemma datetime_new_Ok (y m d h mi s us : Z) (t : datetime) :
  datetime_new y m d h mi s us = Ok t -> valid_datetime t.
Proof.
  unfold datetime_new, bind. intro H.
  destruct (_check_date_fields y m d) as [u|] eqn:Hd; [|discriminate].
  destruct (_check_time_fields h mi s us) as [u'|] eqn:Ht; [|discriminate].
  injection H as <-.
  apply check_date_fields_Ok in Hd. apply check_time_fields_Ok in Ht.
  unfold valid_datetime; simpl. lia.
Qed.

Lemma datetime_new_Raise (y m d h mi s us : Z) (e : exn) :
  datetime_new y m d h mi s us = Raise e -> e = ValueError.
Proof.
  unfold datetime_new, _check_date_fields, _check_time_fields, bind. intro H.
  destruct_ifs; congruence.
Qed.

(** A parsed timestamp went through the constructor's checks. *)
Lemma strptime_valid (data_string format : list ascii) (t : datetime) :
  strptime data_string format = Ok t -> valid_datetime t.
Proof.
  unfold strptime. intro H.
  destruct (pattern false format) as [re|]; [|discriminate].
  destruct (re_match re data_string) as [[[|c rest] g]|]; try discriminate.
  unfold bind in H.
  destruct (_check_date_fields _ _ _); [|discriminate].
  exact (datetime_new_Ok _ _ _ _ _ _ _ _ H).
Qed.

(** [strptime] raises nothing but [ValueError]. *)
Lemma strptime_Raise (data_string format : list ascii) (e : exn) :
  strptime data_string format = Raise e -> e = ValueError.
Proof.
  unfold strptime. intro H.
  destruct (pattern false format) as [re|]; [|congruence].
  destruct (re_match re data_string) as [[[|c rest] g]|]; try congruence.
  unfold bind in H.
  destruct (_check_date_fields _ _ _) as [u|e'] eqn:Hd.
  - exact (datetime_new_Raise _ _ _ _ _ _ _ _ H).
  - unfold _check_date_fields in Hd. destruct_ifs; congruence.
Qed.

Lemma days_before_year_bounds (y : Z) :
  1 <= y <= 9999 -> 0 <= _days_before_year y <= 3652059.
Proof.
  intro H. unfold _days_before_year. Z.div_mod_to_equations. lia.
Qed.

Lemma days_before_month_bounds (y m : Z) :
  1 <= m <= 12 -> 0 <= _days_before_month y m <= 335.
Proof.
  intro H. unfold _days_before_month.
  assert (Hm : m = 1 \/ m = 2 \/ m = 3 \/ m = 4 \/ m = 5 \/ m = 6 \/ m = 7
               \/ m = 8 \/ m = 9 \/ m = 10 \/ m = 11 \/ m = 12) by lia.
  repeat (destruct Hm as [-> | Hm]); try subst m; simpl;
    destruct (_is_leap y); simpl; lia.
Qed.

Lemma micros_bounds (t : datetime) :
  valid_datetime t -> 0 <= micros t < 500000000000000000.
Proof.
  unfold valid_datetime, micros, toordinal, _ymd2ord. intro H.
  pose proof (days_before_year_bounds (year t)).
  pose proof (days_before_month_bounds (year t) (month t)).
  lia.
Qed.

(** The constructor keeps the duration and normalizes its fields; it
    overflows on no duration that two valid datetimes can be apart. *)
Lemma timedelta_new_spec (d s us : Z) :
  Z.abs ((d * 86400 + s) * 1000000 + us) <= 1000000000000000000 ->
  exists t, timedelta_new d s us = Ok t
            /\ total_micros t = (d * 86400 + s) * 1000000 + us
            /\ normalized t.
Proof.
  intro Hb. unfold timedelta_new.
  match goal with |- context [if ?c then _ else _] => destruct c eqn:Hov end.
  - exfalso. apply Z.ltb_lt in Hov. revert Hov Hb.
    Z.div_mod_to_equations. lia.
  - eexists. split; [reflexivity|].
    unfold total_micros, normalized; simpl.
    clear Hov Hb. Z.div_mod_to_equations. lia.
Qed.

Lemma timedelta_abs_spec (t : timedelta) :
  normalized t ->
  Z.abs (total_micros t) <= 1000000000000000000 ->
  exists t', timedelta_abs t = Ok t'
             /\ total_micros t' = Z.abs (total_micros t).
Proof.
  intros [Hs Hu] Hb. unfold timedelta_abs.
  destruct (days t <? 0) eqn:Hneg.
  - apply Z.ltb_lt in Hneg. unfold timedelta_neg.
    destruct (timedelta_new_spec (- days t) (- seconds t) (- microseconds t))
      as [t' [Ht' [Htot _]]].
    { unfold total_micros in Hb. lia. }
    exists t'. split; [assumption|].
    rewrite Htot. unfold total_micros. lia.
  - apply Z.ltb_ge in Hneg. exists t. split; [reflexivity|].
    unfold total_micros. lia.
Qed.

Lemma datetime_sub_spec (a b : datetime) :
  valid_datetime a -> valid_datetime b ->
  exists t, datetime_sub a b = Ok t
            /\ total_micros t = micros a - micros b
            /\ normalized t.
Proof.
  intros Ha Hb. unfold datetime_sub.
  pose proof (micros_bounds a Ha) as Ba. pose proof (micros_bounds b Hb) as Bb.
  destruct (timedelta_new_spec
              (toordinal a - toordinal b)
              (second a + minute a * 60 + hour a * 3600
               - (second b + minute b * 60 + hour b * 3600))
              (microsecond a - microsecond b)) as [t [Ht [Htot Hn]]].
  { unfold micros in Ba, Bb. lia. }
  exists t. split; [assumption|]. split; [|assumption].
  rewrite Htot. unfold micros. lia.
Qed.

Lemma total_seconds_minutes (t : timedelta) :
  (total_seconds t / 60 == inject_Z (total_micros t) / inject_Z 60000000)%Q.
Proof.
  unfold total_seconds, total_micros.
  change (10 ^ 6) with 1000000.
  unfold Qdiv, Qmult, Qinv, Qeq, inject_Z; simpl. lia.
Qed.

End Strptime.

(** ** Step 2 of the notebook: cleaning *)

Module Cleaner.

Import Py Strptime.

Definition date_format : list ascii :=
  list_ascii_of_string "Date: %Y-%m-%d %H:%M:%S.%f".

(** The characters of the cell are ASCII characters. *)
Definition ascii_only (cell : string) : bool :=
  forallb (fun c => (code c <? 128)%Z) (list_ascii_of_string cell).

(** [cell[:-1]]: the string without its last character.  A NaN cell is a
    float, which cannot be sliced. *)
Definition drop_last_char (cell : option string) : result (list ascii) :=
  match cell with
  | Some s => Ok (removelast (list_ascii_of_string s))
  | None => Raise TypeError
  end.

Definition travel_time_manual (row : trip) : result Q :=
  date_str_arr <- drop_last_char (arrival_time_string row) ;;
  date_str_dep <- drop_last_char (depart_time_string row) ;;
  dt_object_arr <- strptime date_str_arr date_format ;;
  dt_object_dep <- strptime date_str_dep date_format ;;
  difference <- datetime_sub dt_object_arr dt_object_dep ;;
  delta_time <- timedelta_abs difference ;;
  let travel_time_mins := total_seconds delta_time / 60 in
  Ok travel_time_mins.

(** [trips.dropna(subset=['depart_time_string', 'arrival_time_string'])],
    with pandas' default [how='any']. *)
Definition dropna_time_strings (trips : table) : table :=
  filter (fun r => notna (depart_time_string r)
                   && notna (arrival_time_string r)) trips.

(** [trips_clean.apply(travel_time_manual, axis=1)] stored in the column
    [travel_time_calc].  On a table that has a row the rows are visited
    in order; a table without any row is left as it is here, where pandas
    refuses the assignment. *)
Definition apply_travel_time (trips_clean : table) : result table :=
  for_each (fun r => v <- travel_time_manual r ;; Ok (set_travel_time_calc v r))
           trips_clean.

Definition Qltb (x y : Q) : bool := negb (Qle_bool y x).

(** [column < bound]: false on a NaN cell. *)
Definition cell_lt (cell : option Q) (bound : Q) : bool :=
  match cell with
  | Some v => Qltb v bound
  | None => false
  end.

Definition isin (x : Z) (values : list Z) : bool := existsb (Z.eqb x) values.

Definition filter_rows (ceiling : Q) (day_types : list Z) (t : table) : table :=
  filter (fun r => cell_lt (travel_time_calc r) ceiling
                   && isin (daynum r) day_types) t.

(** The filter cell, with the notebook's constants. *)
Definition filter_workday_trips (t : table) : table :=
  filter_rows 120 [1; 2; 3; 4; 5]%Z t.

(** The three cleaning cells in the order the notebook runs them. *)
Definition cleaner (trips : table) : result table :=
  with_times <- apply_travel_time (dropna_time_strings trips) ;;
  Ok (filter_workday_trips with_times).

(** A trip of which only the cleaning columns matter. *)
Definition stamped (day : Z) (arrival depart : option string) : trip :=
  {| trip_id := 0; household_id := 0; person_dim_id := 0; daynum := day;
     survey_year := 2017; age := None;
     origin_purpose := None; dest_purpose := None;
     mode_simple := None; trip_path_distance := None;
     arrival_time_string := arrival; depart_time_string := depart;
     travel_time_calc := None |}.

(** A half-hour trip on a Wednesday. *)
Definition good_row : trip :=
  stamped 3 (Some "Date: 2017-04-05 08:45:30.000Z"%string)
            (Some "Date: 2017-04-05 08:15:00.000Z"%string).

(** The arrival string has no "Date: " in front. *)
Definition bad_row : trip :=
  stamped 3 (Some "2017-04-05 17:45:30.000Z"%string)
            (Some "Date: 2017-04-05 17:15:00.000Z"%string).

(** A raw table: a workday half-hour trip, a Saturday trip, a three-hour
    trip and a trip without departure string. *)
Definition raw_sample : table :=
  [ good_row;
    stamped 6 (Some "Date: 2017-04-08 10:20:00.000Z"%string)
              (Some "Date: 2017-04-08 10:00:00.000Z"%string);
    stamped 1 (Some "Date: 2017-04-03 12:00:00.000Z"%string)
              (Some "Date: 2017-04-03 09:00:00.000Z"%string);
    stamped 2 (Some "Date: 2017-04-04 09:00:00.000Z"%string) None ].

(** A row as the recomputation leaves it: both strings are there and the
    stored travel time is the one they give. *)
Definition settled (r : trip) : Prop :=
  exists v, travel_time_manual r = Ok v /\ set_travel_time_calc v r = r.

Lemma Qltb_lt (x y : Q) : Qltb x y = true <-> x < y.
Proof.
  unfold Qltb. rewrite negb_true_iff. split.
  - intro H. apply Qnot_le_lt. intro Hle.
    apply Qle_bool_iff in Hle. congruence.
  - intro H. destruct (Qle_bool y x) eqn:E; [|reflexivity].
    apply Qle_bool_iff in E. exfalso. exact (Qlt_not_le _ _ H E).
Qed.

Lemma isin_In (x : Z) (values : list Z) : isin x values = true <-> In x values.
Proof.
  unfold isin. rewrite existsb_exists. split.
  - intros [y [Hy Heq]]. apply Z.eqb_eq in Heq. now subst.
  - intro H. exists x. split; [assumption | apply Z.eqb_refl].
Qed.

Lemma filter_rows_In (ceiling : Q) (day_types : list Z) (t : table) (r : trip) :
  In r (filter_rows ceiling day_types t)
  <-> In r t
      /\ (exists v, travel_time_calc r = Some v /\ v < ceiling)
      /\ In (daynum r) day_types.
Proof.
  unfold filter_rows. rewrite filter_In, andb_true_iff, isin_In.
  unfold cell_lt. destruct (travel_time_calc r) as [v|].
  - rewrite Qltb_lt. split.
    + intros [Hin [Hlt Hd]]. repeat split; try assumption. now exists v.
    + intros [Hin [[v' [Hv Hlt]] Hd]]. injection Hv as <-. now repeat split.
  - split.
    + intros [_ [Hf _]]. discriminate.
    + intros [_ [[v' [Hv _]] _]]. discriminate.
Qed.

(** C3: the plausibility filter keeps exactly the rows whose recomputed
    travel time is strictly below the ceiling and whose day number is in
    the day-type set; with the notebook's constants, below 120 minutes and
    on days 1 to 5.  The kept rows stay in their order. *)
Theorem plausibility_filter_exact (t : table) :
  (forall ceiling day_types r,
      In r (filter_rows ceiling day_types t)
      <-> In r t
          /\ (exists v, travel_time_calc r = Some v /\ v < ceiling)
          /\ In (daynum r) day_types)
  /\ (forall r,
         In r (filter_workday_trips t)
         <-> In r t
             /\ (exists v, travel_time_calc r = Some v /\ v < 120)
             /\ (1 <= daynum r <= 5)%Z)
  /\ (forall r rest,
         let keep := (exists v, travel_time_calc r = Some v /\ v < 120)
                     /\ (1 <= daynum r <= 5)%Z in
         (keep -> filter_workday_trips (r :: rest)
                  = r :: filter_workday_trips rest)
         /\ (~ keep -> filter_workday_trips (r :: rest)
                       = filter_workday_trips rest)).
Proof.
  split; [|split].
  - intros. apply filter_rows_In.
  - intro r. unfold filter_workday_trips. rewrite filter_rows_In.
    assert (Hd : In (daynum r) [1; 2; 3; 4; 5]%Z <-> (1 <= daynum r <= 5)%Z).
    { simpl. lia. }
    rewrite Hd. reflexivity.
  - intros r rest keep.
    assert (Hkeep : cell_lt (travel_time_calc r) 120
                    && isin (daynum r) [1; 2; 3; 4; 5]%Z = true <-> keep).
    { unfold keep. rewrite andb_true_iff, isin_In. unfold cell_lt.
      destruct (travel_time_calc r) as [v|].
      - rewrite Qltb_lt. simpl. split.
        + intros [Hlt Hd]. split; [now exists v | lia].
        + intros [[v' [Hv Hlt]] Hd]. injection Hv as <-. split; [assumption | lia].
      - split.
        + intros [Hf _]. discriminate.
        + intros [[v' [Hv _]] _]. discriminate. }
    unfold filter_workday_trips, filter_rows. cbn [filter].
    destruct (cell_lt (travel_time_calc r) 120
              && isin (daynum r) [1; 2; 3; 4; 5]%Z).
    + split; [reflexivity|]. intro Hn. exfalso. apply Hn, Hkeep. reflexivity.
    + split; [|reflexivity]. intro Hk. apply Hkeep in Hk. discriminate.
Qed.

Lemma dropna_In (trips : table) (r : trip) :
  In r (dropna_time_strings trips)
  <-> In r trips
      /\ arrival_time_string r <> None /\ depart_time_string r <> None.
Proof.
  unfold dropna_time_strings. rewrite filter_In, andb_true_iff.
  unfold notna.
  destruct (arrival_time_string r), (depart_time_string r);
    intuition congruence.
Qed.

(** C5, as the code has it: the missing-timestamp drop removes exactly the
    rows that miss the arrival string or the departure string; the rows
    that have both strings are kept, and only those. *)
Theorem dropna_removes_any_missing (trips : table) (r : trip) :
  (In r (dropna_time_strings trips)
   <-> In r trips
       /\ arrival_time_string r <> None /\ depart_time_string r <> None)
  /\ (arrival_time_string r = None \/ depart_time_string r = None ->
      dropna_time_strings (r :: trips) = dropna_time_strings trips)
  /\ (arrival_time_string r <> None /\ depart_time_string r <> None ->
      dropna_time_strings (r :: trips) = r :: dropna_time_strings trips).
Proof.
  split; [apply dropna_In|].
  unfold dropna_time_strings. cbn [filter]. unfold notna.
  destruct (arrival_time_string r), (depart_time_string r); cbn [andb];
    split; intros H; try reflexivity.
  - destruct H; discriminate.
  - destruct H as [_ H]. congruence.
  - destruct H as [H _]. congruence.
  - destruct H as [H _]. congruence.
Qed.

Lemma dropna_removes_any_missing_witness :
  dropna_time_strings raw_sample
  = [ good_row;
      stamped 6 (Some "Date: 2017-04-08 10:20:00.000Z"%string)
                (Some "Date: 2017-04-08 10:00:00.000Z"%string);
      stamped 1 (Some "Date: 2017-04-03 12:00:00.000Z"%string)
                (Some "Date: 2017-04-03 09:00:00.000Z"%string) ].
Proof.
  unfold raw_sample.
  rewrite (proj2 (proj2 (dropna_removes_any_missing _ good_row)));
    [|split; discriminate].
  rewrite (proj2 (proj2 (dropna_removes_any_missing _ _)));
    [|split; discriminate].
  rewrite (proj2 (proj2 (dropna_removes_any_missing _ _)));
    [|split; discriminate].
  rewrite (proj1 (proj2 (dropna_removes_any_missing _ _)));
    [reflexivity | now right].
Defined.

(** C5 as stated fails: a row with its arrival string present and its
    departure string missing is removed. *)
Lemma dropna_removes_half_missing :
  let r := stamped 2 (Some "Date: 2017-04-05 08:15:30.000Z"%string) None in
  arrival_time_string r <> None
  /\ In r [r]
  /\ ~ In r (dropna_time_strings [r]).
Proof.
  intro r. split; [discriminate|]. split; [now left|].
  vm_compute. tauto.
Qed.

(** *** The recomputed travel time *)

Lemma Qabs_inject_Z_minus (x y : Z) :
  Qabs (inject_Z x - inject_Z y) == inject_Z (Z.abs (x - y)).
Proof.
  unfold Qabs, Qminus, Qplus, Qopp, Qeq, inject_Z; simpl.
  f_equal. f_equal. lia.
Qed.

(** On a row with both strings, [travel_time_manual] fails exactly when a
    string fails to parse, and then with [ValueError]. *)
Lemma travel_time_manual_cases (row : trip) (sa sd : string) :
  arrival_time_string row = Some sa ->
  depart_time_string row = Some sd ->
  let pa := strptime (removelast (list_ascii_of_string sa)) date_format in
  let pd := strptime (removelast (list_ascii_of_string sd)) date_format in
  (exists a d t t',
      pa = Ok a /\ pd = Ok d
      /\ datetime_sub a d = Ok t /\ timedelta_abs t = Ok t'
      /\ total_micros t' = Z.abs (micros a - micros d)
      /\ travel_time_manual row = Ok (total_seconds t' / 60))
  \/ (((forall a, pa <> Ok a) \/ (forall d, pd <> Ok d))
      /\ travel_time_manual row = Raise ValueError).
Proof.
  intros Ha Hd pa pd.
  unfold travel_time_manual, drop_last_char. rewrite Ha, Hd. cbn [bind].
  fold pa pd.
  destruct pa as [a|ea] eqn:Epa.
  - destruct pd as [d|ed] eqn:Epd.
    + left.
      destruct (datetime_sub_spec a d (strptime_valid _ _ _ Epa)
                                  (strptime_valid _ _ _ Epd))
        as [t [Hsub [Htot Hnorm]]].
      pose proof (micros_bounds a (strptime_valid _ _ _ Epa)) as Ba.
      pose proof (micros_bounds d (strptime_valid _ _ _ Epd)) as Bd.
      destruct (timedelta_abs_spec t Hnorm) as [t' [Habs Htot']].
      { rewrite Htot. lia. }
      exists a, d, t, t'. repeat split; try assumption.
      * now rewrite Htot', Htot.
      * cbn [bind]. rewrite Hsub. cbn [bind]. rewrite Habs. reflexivity.
    + right. split; [right; intros d; discriminate|].
      cbn [bind]. now rewrite (strptime_Raise _ _ _ Epd).
  - right. split; [left; intros a; discriminate|].
    cbn [bind]. now rewrite (strptime_Raise _ _ _ Epa).
Qed.

(** C2: on a row whose arrival and departure strings both parse, the
    recomputed travel time is the absolute difference of the two parsed
    timestamps, in minutes, hence non-negative; it is the value the
    Cleaner stores in [travel_time_calc]. *)
Theorem travel_time_is_abs_difference
        (row : trip) (sa sd : string) (a d : datetime) :
  arrival_time_string row = Some sa ->
  depart_time_string row = Some sd ->
  strptime (removelast (list_ascii_of_string sa)) date_format = Ok a ->
  strptime (removelast (list_ascii_of_string sd)) date_format = Ok d ->
  exists t,
    travel_time_manual row = Ok t
    /\ t == Qabs (inject_Z (micros a) - inject_Z (micros d))
            / inject_Z 60000000
    /\ 0 <= t
    /\ apply_travel_time [row] = Ok [set_travel_time_calc t row].
Proof.
  intros Ha Hd Hpa Hpd.
  destruct (travel_time_manual_cases row sa sd Ha Hd)
    as [[a' [d' [t [t' [Ea [Ed [_ [_ [Htot Htt]]]]]]]]] | [[Hn | Hn] _]].
  - rewrite Hpa in Ea. rewrite Hpd in Ed.
    injection Ea as <-. injection Ed as <-.
    exists (total_seconds t' / 60).
    assert (Heq : total_seconds t' / 60
                  == Qabs (inject_Z (micros a) - inject_Z (micros d))
                     / inject_Z 60000000).
    { rewrite total_seconds_minutes, Htot, Qabs_inject_Z_minus. reflexivity. }
    split; [assumption|]. split; [assumption|]. split.
    + rewrite Heq. apply Qle_shift_div_l; [reflexivity|].
      rewrite Qmult_0_l. apply Qabs_nonneg.
    + unfold apply_travel_time. cbn [for_each bind]. rewrite Htt. reflexivity.
  - exfalso. exact (Hn a Hpa).
  - exfalso. exact (Hn d Hpd).
Qed.

Lemma travel_time_is_abs_difference_witness :
  exists t,
    travel_time_manual good_row = Ok t
    /\ t == 61 # 2
    /\ 0 <= t.
Proof.
  destruct (travel_time_is_abs_difference
              good_row
              "Date: 2017-04-05 08:45:30.000Z"
              "Date: 2017-04-05 08:15:00.000Z"
              (mk_datetime 2017 4 5 8 45 30 0)
              (mk_datetime 2017 4 5 8 15 0 0)
              eq_refl eq_refl eq_refl eq_refl)
    as [t [Ht [Heq [Hpos _]]]].
  exists t. split; [exact Ht|]. split; [|exact Hpos].
  rewrite Heq. reflexivity.
Defined.

(** *** A timestamp that does not parse *)

Lemma for_each_first_raise {A B : Type} (f : A -> result B) (l : list A) (e : exn) :
  (forall x e', In x l -> f x = Raise e' -> e' = e) ->
  (exists x e', In x l /\ f x = Raise e') ->
  for_each f l = Raise e.
Proof.
  induction l as [|y l IH]; intros Hall [x [e' [Hin Hx]]].
  - destruct Hin.
  - cbn [for_each bind]. destruct (f y) as [b|ey] eqn:Ey.
    + cbn [bind]. destruct Hin as [-> | Hin]; [congruence|].
      rewrite IH.
      * reflexivity.
      * intros z ez Hz. apply Hall. now right.
      * now exists x, e'.
    + cbn [bind]. f_equal. apply (Hall y); [now left | assumption].
Qed.

Lemma stored_time_cases (r : trip) :
  arrival_time_string r <> None -> depart_time_string r <> None ->
  (exists v, travel_time_manual r = Ok v)
  \/ travel_time_manual r = Raise ValueError.
Proof.
  intros Ha Hd.
  destruct (arrival_time_string r) as [sa|] eqn:Ea; [|congruence].
  destruct (depart_time_string r) as [sd|] eqn:Ed; [|congruence].
  destruct (travel_time_manual_cases r sa sd Ea Ed)
    as [[a [d [t [t' [_ [_ [_ [_ [_ Htt]]]]]]]]] | [_ Htt]].
  - left. eauto.
  - now right.
Qed.

(** C4, as the code has it: when a row that has both timestamp strings,
    made of ASCII characters, has one that does not parse, [ValueError]
    leaves the recomputation and the Cleaner produces no table at all:
    neither the offending row nor the other rows come out, and nothing is
    counted.  No default value is put in place of the unparseable one. *)
Theorem bad_timestamp_aborts (trips : table) (r : trip) (sa sd : string) :
  In r trips ->
  arrival_time_string r = Some sa ->
  depart_time_string r = Some sd ->
  ascii_only sa = true ->
  ascii_only sd = true ->
  (forall a, strptime (removelast (list_ascii_of_string sa)) date_format <> Ok a)
  \/ (forall d, strptime (removelast (list_ascii_of_string sd)) date_format <> Ok d) ->
  travel_time_manual r = Raise ValueError
  /\ cleaner trips = Raise ValueError.
Proof.
  intros Hin Ha Hd _ _ Hbad.
  assert (Hr : travel_time_manual r = Raise ValueError).
  { destruct (travel_time_manual_cases r sa sd Ha Hd)
      as [[a [d [t [t' [Ea [Ed _]]]]]] | [_ Htt]]; [|assumption].
    exfalso. destruct Hbad as [Hn | Hn]; [exact (Hn a Ea) | exact (Hn d Ed)]. }
  split; [assumption|].
  unfold cleaner, apply_travel_time.
  rewrite (for_each_first_raise _ _ ValueError); [reflexivity| |].
  - intros x e' Hx Hraise. apply dropna_In in Hx. destruct Hx as [_ [Hxa Hxd]].
    destruct (stored_time_cases x Hxa Hxd) as [[v Hv] | Hv];
      rewrite Hv in Hraise; cbn [bind] in Hraise; congruence.
  - exists r, ValueError. split.
    + apply dropna_In. rewrite Ha, Hd. repeat split; [assumption| |]; discriminate.
    + now rewrite Hr.
Qed.

Lemma bad_timestamp_aborts_witness :
  travel_time_manual bad_row = Raise ValueError
  /\ cleaner [good_row; bad_row] = Raise ValueError.
Proof.
  apply (bad_timestamp_aborts
           [good_row; bad_row] bad_row
           "2017-04-05 17:45:30.000Z" "Date: 2017-04-05 17:15:00.000Z").
  - right. left. reflexivity.
  - reflexivity.
  - reflexivity.
  - reflexivity.
  - reflexivity.
  - left. intros a H. vm_compute in H. discriminate H.
Defined.

(** C4 as stated fails: with one unparseable row in the table the Cleaner
    has no output, so the well-formed row does not appear in it either. *)
Lemma bad_timestamp_not_skipped :
  (exists v, travel_time_manual good_row = Ok v)
  /\ cleaner [good_row; bad_row] = Raise ValueError
  /\ ~ (exists out, cleaner [good_row; bad_row] = Ok out
                    /\ exists r, In r out
                                 /\ arrival_time_string r
                                    = arrival_time_string good_row).
Proof.
  split; [|split].
  - eexists. vm_compute. reflexivity.
  - vm_compute. reflexivity.
  - intros [out [H _]]. vm_compute in H. discriminate H.
Qed.

(** *** Cleaning twice *)

Lemma travel_time_manual_set (v : Q) (r : trip) :
  travel_time_manual (set_travel_time_calc v r) = travel_time_manual r.
Proof. reflexivity. Qed.

Lemma set_travel_time_calc_twice (v : Q) (r : trip) :
  set_travel_time_calc v (set_travel_time_calc v r) = set_travel_time_calc v r.
Proof. reflexivity. Qed.

Lemma apply_travel_time_settled (t out : table) :
  apply_travel_time t = Ok out -> Forall settled out.
Proof.
  unfold apply_travel_time. revert out.
  induction t as [|r t IH]; intros out H; cbn [for_each bind] in H.
  - injection H as <-. constructor.
  - destruct (travel_time_manual r) as [v|] eqn:Ev; cbn [bind] in H;
      [|discriminate].
    destruct (for_each _ t) as [ys|] eqn:Ey; cbn [bind] in H; [|discriminate].
    injection H as <-. constructor.
    + exists v. split.
      * now rewrite travel_time_manual_set.
      * apply set_travel_time_calc_twice.
    + now apply IH.
Qed.

Lemma settled_notna (r : trip) :
  settled r ->
  notna (depart_time_string r) && notna (arrival_time_string r) = true.
Proof.
  intros [v [Hv _]]. unfold travel_time_manual, drop_last_char in Hv.
  destruct (arrival_time_string r); [|discriminate].
  destruct (depart_time_string r); [reflexivity|discriminate].
Qed.

Lemma filter_all {A : Type} (p : A -> bool) (l : list A) :
  Forall (fun x => p x = true) l -> filter p l = l.
Proof.
  induction 1 as [|x l Hx _ IH]; simpl; [reflexivity|].
  now rewrite Hx, IH.
Qed.

Lemma apply_travel_time_fixed (t : table) :
  Forall settled t -> apply_travel_time t = Ok t.
Proof.
  unfold apply_travel_time.
  induction 1 as [|r t [v [Hv Hset]] _ IH]; cbn [for_each bind]; [reflexivity|].
  rewrite Hv. cbn [bind]. rewrite IH. cbn [bind]. now rewrite Hset.
Qed.

Lemma Forall_filter {A : Type} (P : A -> Prop) (p : A -> bool) (l : list A) :
  Forall P l -> Forall P (filter p l).
Proof.
  induction 1 as [|x l Hx _ IH]; simpl; [constructor|].
  destruct (p x); [constructor|]; assumption.
Qed.

(** C9: the Cleaner is idempotent: cleaning its own output (drop of the
    rows without timestamp strings, recomputation of the travel time,
    plausibility filter) gives that output back. *)
Theorem cleaner_idempotent (trips out : table) :
  cleaner trips = Ok out -> cleaner out = Ok out.
Proof.
  unfold cleaner. intro H.
  destruct (apply_travel_time (dropna_time_strings trips)) as [t1|] eqn:E1;
    cbn [bind] in H; [|discriminate].
  injection H as <-.
  pose proof (apply_travel_time_settled _ _ E1) as Hs.
  assert (Hs' : Forall settled (filter_workday_trips t1)).
  { unfold filter_workday_trips, filter_rows. now apply Forall_filter. }
  assert (Hdrop : dropna_time_strings (filter_workday_trips t1)
                  = filter_workday_trips t1).
  { unfold dropna_time_strings. apply filter_all.
    eapply Forall_impl; [|exact Hs']. intros r Hr. now apply settled_notna. }
  rewrite Hdrop, (apply_travel_time_fixed _ Hs'). cbn [bind]. f_equal.
  unfold filter_workday_trips, filter_rows. apply filter_all.
  apply Forall_forall. intros r Hr. apply filter_In in Hr. tauto.
Qed.

Lemma cleaner_idempotent_witness :
  exists out, cleaner raw_sample = Ok out
              /\ List.length out = 1%nat
              /\ cleaner out = Ok out.
Proof.
  eexists. split; [vm_compute; reflexivity|]. split; [reflexivity|].
  apply (cleaner_idempotent raw_sample). vm_compute. reflexivity.
Defined.

End Cleaner.

(** ** Step 4 of the notebook: [mobility_metrics] *)

Module Mobility.

Import Py.

(** The key row of [person_day_df]. *)
Record person_day : Type := mk_person_day {
  pd_person_dim_id : Z;
  pd_daynum : Z
}.

Definition trips_day_person (trips_clean : table) (row : person_day) : table :=
  filter (fun t => (person_dim_id t =? pd_person_dim_id row)%Z
                   && (daynum t =? pd_daynum row)%Z) trips_clean.

(** [Series.sum()] skips NaN cells. *)
Definition sum_skipna (cells : list (option Q)) : Q :=
  fold_left (fun acc c => match c with Some d => acc + d | None => acc end)
            cells 0.

(** The two variables the trip-chain loop updates. *)
Record walk : Type := mk_walk {
  trip_chains : nat;
  start_home : bool
}.

Definition walk_init : walk := {| trip_chains := 0; start_home := false |}.

(** One iteration of [for idx, row in trips_day_person.iterrows()]. *)
Definition walk_step (w : walk) (row : trip) : walk :=
  let start_home' :=
    if str_eq (origin_purpose row) "Went home" then true else start_home w in
  if str_ne (dest_purpose row) "Went home" && start_home' then
    {| trip_chains := trip_chains w; start_home := start_home' |}
  else if str_eq (dest_purpose row) "Went home"
          && str_eq (origin_purpose row) "Went home" then
    {| trip_chains := trip_chains w; start_home := start_home' |}
  else if str_eq (dest_purpose row) "Went home" && start_home' then
    {| trip_chains := S (trip_chains w); start_home := false |}
  else
    {| trip_chains := trip_chains w; start_home := start_home' |}.

Definition walk_all (rows : table) : walk := fold_left walk_step rows walk_init.

Record metrics : Type := mk_metrics {
  m_num_trips : nat;
  m_pmt : Q;
  m_vmt : Q;
  m_trip_chains : nat
}.

Definition mobility_metrics (trips_clean : table) (row : person_day) : metrics :=
  let tdp := trips_day_person trips_clean row in
  {| m_num_trips := List.length tdp;
     m_pmt := sum_skipna (map trip_path_distance tdp);
     m_vmt := sum_skipna
                (map trip_path_distance
                     (filter (fun t => str_eq (mode_simple t) "Drive") tdp));
     m_trip_chains := trip_chains (walk_all tdp) |}.

(** A trip of person [p] on day [d] of which only the purposes matter. *)
Definition leg (p d : Z) (origin dest : string) : trip :=
  {| trip_id := 0; household_id := 0; person_dim_id := p; daynum := d;
     survey_year := 2017; age := None;
     origin_purpose := Some origin; dest_purpose := Some dest;
     mode_simple := None; trip_path_distance := None;
     arrival_time_string := None; depart_time_string := None;
     travel_time_calc := None |}.

Definition mentions_home (t : trip) : bool :=
  str_eq (origin_purpose t) "Went home" || str_eq (dest_purpose t) "Went home".

(** The counter only moves up, one step at most per trip. *)
Lemma walk_step_chains (w : walk) (row : trip) :
  (trip_chains w <= trip_chains (walk_step w row) <= S (trip_chains w))%nat.
Proof.
  unfold walk_step.
  repeat match goal with |- context [if ?b then _ else _] => destruct b end;
    simpl; lia.
Qed.

Lemma fold_walk_chains (rows : table) (w : walk) :
  (trip_chains (fold_left walk_step rows w) <= trip_chains w + List.length rows)%nat.
Proof.
  revert w; induction rows as [|r rows IH]; intro w; simpl; [lia|].
  specialize (IH (walk_step w r)).
  pose proof (walk_step_chains w r). lia.
Qed.

(** Away from home with the flag down, a trip that never mentions home
    leaves the walk as it is. *)
Lemma walk_step_no_home (w : walk) (row : trip) :
  mentions_home row = false -> start_home w = false ->
  walk_step w row = w.
Proof.
  unfold mentions_home, walk_step, str_ne. intros H Hs.
  apply orb_false_iff in H. destruct H as [Ho Hd].
  rewrite Ho, Hd, Hs. simpl. destruct w; simpl in *; subst; reflexivity.
Qed.

Lemma fold_walk_no_home (rows : table) (w : walk) :
  forallb (fun t => negb (mentions_home t)) rows = true ->
  start_home w = false ->
  fold_left walk_step rows w = w.
Proof.
  revert w; induction rows as [|r rows IH]; intros w Hall Hs; simpl in *.
  - reflexivity.
  - apply andb_true_iff in Hall. destruct Hall as [Hr Hall].
    apply negb_true_iff in Hr.
    rewrite (walk_step_no_home w r Hr Hs). now apply IH.
Qed.

(** C1: for one person-day, the walk counts one chain on
    [home->work, work->home], none on [home->home], and one on
    [home->work, work->store, store->home], home being the purpose
    string "Went home". *)
Theorem trip_chain_examples :
  let pd := {| pd_person_dim_id := 7; pd_daynum := 2 |} in
  let home := "Went home"%string in
  let work := "Went to work"%string in
  let store := "Went grocery shopping"%string in
  m_trip_chains (mobility_metrics [leg 7 2 home work; leg 7 2 work home] pd) = 1%nat
  /\ m_trip_chains (mobility_metrics [leg 7 2 home home] pd) = 0%nat
  /\ m_trip_chains
       (mobility_metrics
          [leg 7 2 home work; leg 7 2 work store; leg 7 2 store home] pd) = 1%nat.
Proof.
  repeat split; vm_compute; reflexivity.
Qed.

(** C8: the trip-chain count of a person-day is at most its number of
    trips, and it is 0 when no trip of the person-day has "Went home" as
    origin or destination purpose. *)
Theorem trip_chains_bounded (trips_clean : table) (row : person_day) :
  (m_trip_chains (mobility_metrics trips_clean row)
     <= m_num_trips (mobility_metrics trips_clean row))%nat
  /\ ((forall t, In t (trips_day_person trips_clean row) ->
                 str_eq (origin_purpose t) "Went home" = false
                 /\ str_eq (dest_purpose t) "Went home" = false) ->
      m_trip_chains (mobility_metrics trips_clean row) = 0%nat).
Proof.
  unfold mobility_metrics, walk_all; simpl. split.
  - pose proof (fold_walk_chains (trips_day_person trips_clean row) walk_init).
    simpl in *. lia.
  - intro Hno. rewrite fold_walk_no_home; try reflexivity.
    apply forallb_forall. intros t Ht. destruct (Hno t Ht) as [Ho Hd].
    unfold mentions_home. now rewrite Ho, Hd.
Qed.

Lemma trip_chains_bounded_witness :
  let tc := [leg 7 2 "Went to work" "Went grocery shopping";
             leg 8 2 "Went home" "Went to work";
             leg 7 2 "Went grocery shopping" "Went to work"] in
  let pd := {| pd_person_dim_id := 7; pd_daynum := 2 |} in
  (m_trip_chains (mobility_metrics tc pd) <= 2)%nat
  /\ m_trip_chains (mobility_metrics tc pd) = 0%nat.
Proof.
  intros tc pd.
  destruct (trip_chains_bounded tc pd) as [Hle Hzero].
  split.
  - exact Hle.
  - apply Hzero. intros t Ht. simpl in Ht.
    destruct Ht as [<- | [<- | []]]; split; reflexivity.
Defined.

End Mobility.

(** ** Step 3 of the notebook: the adult filter *)

Module Weighting.

Import Py.

(** The mask of [trips_clean_adults]: four [!=] comparisons joined by [|]. *)
Definition adult_mask (t : trip) : bool :=
  str_ne (age t) "Under 5 years old"
  || str_ne (age t) "5-11 years"
  || str_ne (age t) "12-15 years"
  || str_ne (age t) "16-17 years".

Definition trips_clean_adults (trips_clean : table) : table :=
  filter adult_mask trips_clean.

Lemma adult_mask_true (t : trip) : adult_mask t = true.
Proof.
  unfold adult_mask, str_ne, str_eq.
  destruct (age t) as [s|]; [|reflexivity].
  destruct (String.eqb_spec s "Under 5 years old") as [->|]; reflexivity.
Qed.

(** C10: the adult-only filter keeps every row: the disjunction of the
    four inequalities is true of every age value, so the filtered table
    is the unfiltered one and no child trip is removed. *)
Theorem adult_filter_keeps_all (trips_clean : table) :
  (forall t, adult_mask t = true)
  /\ trips_clean_adults trips_clean = trips_clean.
Proof.
  split; [exact adult_mask_true|].
  unfold trips_clean_adults.
  induction trips_clean as [|t l IH]; simpl; [reflexivity|].
  now rewrite adult_mask_true, IH.
Qed.

End Weighting.

(** ** Bonus of the notebook: radius of gyration *)

Module Gyration.

Import Py.

(** A coordinate cell of the merged table: a number, or NaN where the
    left merge found no location row. *)
Inductive float : Type :=
| NaN
| Fin (q : Q).

Definition is_nan (x : float) : bool :=
  match x with
  | NaN => true
  | Fin _ => false
  end.

(** [x == y] on floats: NaN equals nothing, itself included. *)
Definition float_eqb (x y : float) : bool :=
  match x, y with
  | Fin a, Fin b => Qeq_bool a b
  | _, _ => false
  end.

Definition float_add (x y : float) : float :=
  match x, y with
  | Fin a, Fin b => Fin (a + b)%Q
  | _, _ => NaN
  end.

(** A point is a (latitude, longitude) tuple. *)
Definition point : Type := (float * float)%type.

Definition point_eqb (p q : point) : bool :=
  float_eqb (fst p) (fst q) && float_eqb (snd p) (snd q).

(** Rounding to the nearest integer, ties to the even one. *)
Definition round_half_even (q : Q) : Z :=
  let f := Qfloor q in
  match ((q - inject_Z f) ?= (1 # 2))%Q with
  | Lt => f
  | Gt => (f + 1)%Z
  | Eq => if Z.even f then f else (f + 1)%Z
  end.

(** [round(x, 3)] *)
Definition round3 (x : float) : float :=
  match x with
  | NaN => NaN
  | Fin q => Fin (inject_Z (round_half_even (q * 1000)) / 1000)%Q
  end.

(** A Python set, as the list of its elements in the order they came in.
    [add] leaves the set alone when an equal element is there; every NaN
    read from the table is an object of its own and equal to none. *)
Definition set_add {A : Type} (eqb : A -> A -> bool) (x : A) (s : list A) : list A :=
  if existsb (eqb x) s then s else s ++ [x].

(** A row of the location table [od]. *)
Record od_row : Type := mk_od_row {
  od_trip_id : Z;
  od_household_id : Z;
  od_origin_lat : float;
  od_origin_lng : float;
  od_dest_lat : float;
  od_dest_lng : float
}.

(** A row of [trips_od]. *)
Record trip_od : Type := mk_trip_od {
  the_trip : trip;
  origin_lat : float;
  origin_lng : float;
  dest_lat : float;
  dest_lng : float
}.

(** [pd.merge(trips_clean, od, on=["trip_id", "household_id"], how="left")] *)
Definition merge_left (trips_clean : table) (od : list od_row) : list trip_od :=
  flat_map
    (fun t =>
       match filter (fun o => (od_trip_id o =? trip_id t)%Z
                              && (od_household_id o =? household_id t)%Z) od with
       | [] => [mk_trip_od t NaN NaN NaN NaN]
       | found =>
           map (fun o => mk_trip_od t (od_origin_lat o) (od_origin_lng o)
                                    (od_dest_lat o) (od_dest_lng o)) found
       end)
    trips_clean.

(** The three sets the loop of [rog_centroid_df] fills. *)
Record uniques : Type := mk_uniques {
  unique_lat : list float;
  unique_lng : list float;
  unique_pts : list point
}.

Definition no_uniques : uniques :=
  {| unique_lat := []; unique_lng := []; unique_pts := [] |}.

(** One iteration of [for idx, row in person_trips_df.iterrows()]. *)
Definition collect (u : uniques) (row : trip_od) : uniques :=
  let olat := round3 (origin_lat row) in
  let olng := round3 (origin_lng row) in
  let dlat := round3 (dest_lat row) in
  let dlng := round3 (dest_lng row) in
  {| unique_lat := set_add float_eqb dlat (set_add float_eqb olat (unique_lat u));
     unique_lng := set_add float_eqb dlng (set_add float_eqb olng (unique_lng u));
     unique_pts := set_add point_eqb (dlat, dlng)
                           (set_add point_eqb (olat, olng) (unique_pts u)) |}.

(** [np.mean(list(s))]: NaN on the empty list and on a list holding NaN. *)
Definition np_mean (l : list float) : float :=
  match l with
  | [] => NaN
  | _ :: _ =>
      match fold_left float_add l (Fin 0%Q) with
      | NaN => NaN
      | Fin total => Fin (total / inject_Z (Z.of_nat (List.length l)))%Q
      end
  end.

(** [sum_di / n] *)
Definition true_div (x : R) (n : nat) : result R :=
  match n with
  | O => Raise ZeroDivisionError
  | S _ => Ok (x / INR n)%R
  end.

Definition math_sqrt (x : R) : result R :=
  if Rlt_dec x 0 then Raise ValueError else Ok (sqrt x).

Section Geodesic.

(** [geopy.distance.geodesic(p, c).miles]: the distance in miles between
    two (latitude, longitude) points, or the exception geopy raises. *)
Variable geodesic_miles : point -> point -> result R.

Definition rog (points : list point) (centroid : float * float) : result R :=
  d_i <- for_each (fun p => geodesic_miles p (snd centroid, fst centroid))
                  points ;;
  let n := List.length d_i in
  let sum_di := fold_left (fun acc d => (acc + d ^ 2)%R) d_i 0%R in
  mean_sq <- true_div sum_di n ;;
  math_sqrt mean_sq.

Definition person_trips_df (trips_od : list trip_od) (person_id : Z)
  : list trip_od :=
  filter (fun r => (person_dim_id (the_trip r) =? person_id)%Z) trips_od.

Definition rog_centroid_df (trips_od : list trip_od) (person_id : Z) : option R :=
  let u := fold_left collect (person_trips_df trips_od person_id) no_uniques in
  let centroid := (np_mean (unique_lng u), np_mean (unique_lat u)) in
  try_or_None (rog (unique_pts u) centroid).

End Geodesic.

(** *** The words of the specification *)

(** The rounded origin and destination points of the trips, in order. *)
Definition rounded_points (rows : list trip_od) : list point :=
  flat_map (fun r => [ (round3 (origin_lat r), round3 (origin_lng r));
                       (round3 (dest_lat r), round3 (dest_lng r)) ]) rows.

(** The distinct values of a list. *)
Definition uniq {A : Type} (eqb : A -> A -> bool) (l : list A) : list A :=
  fold_left (fun s x => set_add eqb x s) l [].

(** The mean of the squares of a list of distances. *)
Definition mean_of_squares (ds : list R) : R :=
  (fold_right (fun d acc => d ^ 2 + acc)%R 0%R ds / INR (List.length ds))%R.

(** A coordinate pair is valid when both of its numbers are there. *)
Definition valid_pair (lat lng : float) : bool :=
  negb (is_nan lat) && negb (is_nan lng).

Definition has_nan (l : list float) : bool := existsb is_nan l.

(** Two runs end alike: both raise, or both return and the values are
    related. *)
Definition same_outcome {A : Type} (rel : A -> A -> Prop) (m m' : result A) : Prop :=
  match m, m' with
  | Ok a, Ok b => rel a b
  | Raise _, Raise _ => True
  | _, _ => False
  end.

(** The same float up to the representation of the rational. *)
Definition float_equiv (x y : float) : Prop :=
  match x, y with
  | NaN, NaN => True
  | Fin a, Fin b => a == b
  | _, _ => False
  end.

(** A stand-in for geopy on which the statements can be run: the taxicab
    distance in degrees, refused on NaN as geopy refuses it. *)
Definition taxicab_distance (p c : point) : R :=
  match p, c with
  | (Fin a, Fin b), (Fin a', Fin b') => Q2R (Qabs (a - a') + Qabs (b - b'))%Q
  | _, _ => 0%R
  end.

Definition taxicab (p c : point) : result R :=
  if valid_pair (fst p) (snd p) && valid_pair (fst c) (snd c)
  then Ok (taxicab_distance p c)
  else Raise ValueError.

Definition place (person : Z) (olat olng dlat dlng : float) : trip_od :=
  {| the_trip := Mobility.leg person 1 "Went home" "Went to work";
     origin_lat := olat; origin_lng := olng;
     dest_lat := dlat; dest_lng := dlng |}.

(** Three persons: the first stays within one rounded point, the second
    has a trip without location row, the third visits three points. *)
Definition sample_trips_od : list trip_od :=
  [ place 1 (Fin 47.6062) (Fin (-122.3321)) (Fin 47.60649) (Fin (-122.33188));
    place 2 NaN NaN NaN NaN;
    place 3 (Fin 47.606549) (Fin (-122.332)) (Fin 47.7) (Fin (-122.2));
    place 3 (Fin 47.7) (Fin (-122.2)) (Fin 47.6065) (Fin (-122.3321)) ].

(** One of the four coordinates of the row is NaN. *)
Definition lacks_coordinate (r : trip_od) : bool :=
  is_nan (origin_lat r) || is_nan (origin_lng r)
  || is_nan (dest_lat r) || is_nan (dest_lng r).

(** A person with one located trip and one trip without location row. *)
Definition mixed_trips_od : list trip_od :=
  [ place 4 (Fin 47.6062) (Fin (-122.3321)) (Fin 47.7) (Fin (-122.2));
    place 4 NaN NaN NaN NaN ].

(** *** The loop builds the three sets of distinct values *)

Lemma collect_sets (rows : list trip_od) (u : uniques) :
  let add {A : Type} (eqb : A -> A -> bool) := fun s x => set_add eqb x s in
  unique_pts (fold_left collect rows u)
  = fold_left (add point_eqb) (rounded_points rows) (unique_pts u)
  /\ unique_lat (fold_left collect rows u)
     = fold_left (add float_eqb) (map fst (rounded_points rows)) (unique_lat u)
  /\ unique_lng (fold_left collect rows u)
     = fold_left (add float_eqb) (map snd (rounded_points rows)) (unique_lng u).
Proof.
  intro add. revert u.
  induction rows as [|r rows IH]; intro u; [now repeat split|].
  destruct (IH (collect u r)) as [Hp [Hlat Hlng]].
  cbn [fold_left rounded_points flat_map app map fst snd].
  fold (rounded_points rows). rewrite Hp, Hlat, Hlng.
  repeat split.
Qed.

Lemma collect_uniq (rows : list trip_od) :
  unique_pts (fold_left collect rows no_uniques)
  = uniq point_eqb (rounded_points rows)
  /\ unique_lat (fold_left collect rows no_uniques)
     = uniq float_eqb (map fst (rounded_points rows))
  /\ unique_lng (fold_left collect rows no_uniques)
     = uniq float_eqb (map snd (rounded_points rows)).
Proof.
  exact (collect_sets rows no_uniques).
Qed.

(** *** The root mean square *)

Lemma for_each_Forall2 {A B : Type} (f : A -> result B) (l : list A) (ys : list B) :
  Forall2 (fun x y => f x = Ok y) l ys -> for_each f l = Ok ys.
Proof.
  induction 1 as [|x y l ys Hx _ IH]; cbn [for_each bind]; [reflexivity|].
  rewrite Hx. cbn [bind]. rewrite IH. reflexivity.
Qed.

Lemma sum_squares_fold (ds : list R) (acc : R) :
  fold_left (fun a d => (a + d ^ 2)%R) ds acc
  = (acc + fold_right (fun d a => d ^ 2 + a)%R 0%R ds)%R.
Proof.
  revert acc. induction ds as [|d ds IH]; intro acc; cbn [fold_left fold_right].
  - lra.
  - rewrite IH. lra.
Qed.

Lemma sum_squares_nonneg (ds : list R) :
  (0 <= fold_right (fun d a => d ^ 2 + a)%R 0%R ds)%R.
Proof.
  induction ds as [|d ds IH]; cbn [fold_right]; [lra|].
  pose proof (pow2_ge_0 d) as Hd. lra.
Qed.

Lemma mean_of_squares_nonneg (ds : list R) :
  ds <> [] -> (0 <= mean_of_squares ds)%R.
Proof.
  intro Hne. unfold mean_of_squares, Rdiv.
  apply Rmult_le_pos; [apply sum_squares_nonneg|].
  left. apply Rinv_0_lt_compat. apply lt_0_INR.
  destruct ds; [congruence | simpl; lia].
Qed.

Lemma math_sqrt_nonneg (x : R) : (0 <= x)%R -> math_sqrt x = Ok (sqrt x).
Proof.
  intro H. unfold math_sqrt. destruct (Rlt_dec x 0); [lra | reflexivity].
Qed.

Section RogFacts.

Variable geodesic_miles : point -> point -> result R.

Lemma rog_value (points : list point) (centroid : float * float) (ds : list R) :
  points <> [] ->
  Forall2 (fun p d => geodesic_miles p (snd centroid, fst centroid) = Ok d)
          points ds ->
  rog geodesic_miles points centroid = Ok (sqrt (mean_of_squares ds)).
Proof.
  intros Hne Hds. unfold rog.
  rewrite (for_each_Forall2 _ _ _ Hds). cbn [bind].
  assert (Hds' : ds <> []).
  { destruct Hds; [congruence | discriminate]. }
  rewrite sum_squares_fold, Rplus_0_l.
  destruct ds as [|d ds]; [congruence|].
  cbn [List.length true_div bind].
  apply (math_sqrt_nonneg (mean_of_squares (d :: ds))).
  now apply mean_of_squares_nonneg.
Qed.


End RogFacts.

(** *** On exact numbers the order in which a set is listed does not matter *)

Lemma for_each_perm {A B : Type} (f : A -> result B) (l l' : list A) :
  Permutation l l' ->
  same_outcome (@Permutation B) (for_each f l) (for_each f l').
Proof.
  induction 1 as [|x l l' _ IH|x y l|l l' l'' _ IH1 _ IH2].
  - constructor.
  - cbn [for_each bind]. destruct (f x); cbn; [|exact I].
    destruct (for_each f l), (for_each f l'); cbn in *; auto.
  - cbn [for_each bind].
    destruct (f x), (f y), (for_each f l); cbn; auto using perm_swap.
  - destruct (for_each f l), (for_each f l'), (for_each f l'');
      cbn in *; try tauto.
    eapply perm_trans; eassumption.
Qed.

Lemma sum_squares_perm (ds ds' : list R) :
  Permutation ds ds' ->
  fold_right (fun d a => d ^ 2 + a)%R 0%R ds
  = fold_right (fun d a => d ^ 2 + a)%R 0%R ds'.
Proof.
  induction 1; cbn [fold_right]; lra.
Qed.

Lemma rog_perm (geodesic_miles : point -> point -> result R)
      (points points' : list point) (centroid : float * float) :
  Permutation points points' ->
  try_or_None (rog geodesic_miles points centroid)
  = try_or_None (rog geodesic_miles points' centroid).
Proof.
  intro Hperm. unfold rog.
  pose proof (for_each_perm
                (fun p => geodesic_miles p (snd centroid, fst centroid))
                _ _ Hperm) as H.
  destruct (for_each _ points) as [ds|], (for_each _ points') as [ds'|];
    cbn in H; try contradiction; cbn [bind try_or_None]; [|reflexivity].
  rewrite !sum_squares_fold, (sum_squares_perm _ _ H),
    (Permutation_length H).
  reflexivity.
Qed.

Lemma float_equiv_refl (x : float) : float_equiv x x.
Proof. destruct x; simpl; [exact I | reflexivity]. Qed.

Lemma float_equiv_trans (x y z : float) :
  float_equiv x y -> float_equiv y z -> float_equiv x z.
Proof.
  destruct x, y, z; simpl; try tauto. intros H1 H2. now rewrite H1.
Qed.

Lemma float_add_equiv (x x' y : float) :
  float_equiv x x' -> float_equiv (float_add x y) (float_add x' y).
Proof.
  destruct x, x', y; simpl; try tauto. intros H. now rewrite H.
Qed.

Lemma sum_equiv (l : list float) (acc acc' : float) :
  float_equiv acc acc' ->
  float_equiv (fold_left float_add l acc) (fold_left float_add l acc').
Proof.
  revert acc acc'. induction l as [|x l IH]; intros acc acc' H; simpl.
  - assumption.
  - apply IH. now apply float_add_equiv.
Qed.

Lemma sum_perm (l l' : list float) :
  Permutation l l' ->
  forall acc, float_equiv (fold_left float_add l acc)
                          (fold_left float_add l' acc).
Proof.
  induction 1 as [|x l l' _ IH|x y l|l l' l'' _ IH1 _ IH2]; intro acc; simpl.
  - apply float_equiv_refl.
  - apply IH.
  - apply sum_equiv. destruct acc, x, y; simpl; try exact I.
    rewrite <- !Qplus_assoc. apply Qplus_comp; [reflexivity | apply Qplus_comm].
  - eapply float_equiv_trans; [apply IH1 | apply IH2].
Qed.

Lemma np_mean_perm (l l' : list float) :
  Permutation l l' -> float_equiv (np_mean l) (np_mean l').
Proof.
  intro H. pose proof (sum_perm l l' H (Fin 0%Q)) as Hs.
  pose proof (Permutation_length H) as Hlen.
  unfold np_mean. destruct l as [|x l], l' as [|x' l']; try discriminate.
  - exact I.
  - rewrite <- Hlen.
    destruct (fold_left float_add (x :: l) (Fin 0%Q)),
             (fold_left float_add (x' :: l') (Fin 0%Q)); simpl in *; try tauto.
    now rewrite Hs.
Qed.

(** *** Sets with one element, sets with a NaN *)

Lemma set_add_length {A : Type} (eqb : A -> A -> bool) (x : A) (s : list A) :
  (List.length s <= List.length (set_add eqb x s))%nat.
Proof.
  unfold set_add. destruct (existsb (eqb x) s); [lia|].
  rewrite length_app. simpl. lia.
Qed.

Lemma fold_add_length {A : Type} (eqb : A -> A -> bool) (l s : list A) :
  (List.length s
   <= List.length (fold_left (fun s x => set_add eqb x s) l s))%nat.
Proof.
  revert s. induction l as [|x l IH]; intro s; simpl; [lia|].
  pose proof (IH (set_add eqb x s)). pose proof (set_add_length eqb x s). lia.
Qed.







Lemma float_eqb_NaN (s : list float) : existsb (float_eqb NaN) s = false.
Proof.
  induction s as [|y s IH]; simpl; [reflexivity | assumption].
Qed.

Lemma set_add_keeps_nan (x : float) (s : list float) :
  has_nan s = true \/ x = NaN -> has_nan (set_add float_eqb x s) = true.
Proof.
  unfold has_nan, set_add. intros [H | ->].
  - destruct (existsb (float_eqb x) s); [assumption|].
    rewrite existsb_app, H. reflexivity.
  - rewrite float_eqb_NaN, existsb_app. simpl. apply orb_true_r.
Qed.

Lemma uniq_keeps_nan (l s : list float) :
  has_nan s = true \/ In NaN l ->
  has_nan (fold_left (fun s x => set_add float_eqb x s) l s) = true.
Proof.
  revert s. induction l as [|x l IH]; intros s H; simpl.
  - destruct H as [H | []]. assumption.
  - apply IH. destruct H as [H | [-> | H]].
    + left. apply set_add_keeps_nan. now left.
    + left. apply set_add_keeps_nan. now right.
    + now right.
Qed.

Lemma sum_nan (l : list float) (acc : float) :
  has_nan l = true \/ acc = NaN -> fold_left float_add l acc = NaN.
Proof.
  revert acc. induction l as [|x l IH]; intros acc H; simpl.
  - destruct H as [H | H]; [discriminate | assumption].
  - apply IH. destruct H as [H | ->].
    + unfold has_nan in H. simpl in H. apply orb_true_iff in H.
      destruct H as [H | H]; [|now left].
      right. destruct x; [|discriminate]. now destruct acc.
    + now right.
Qed.

Lemma np_mean_nan (l : list float) : has_nan l = true -> np_mean l = NaN.
Proof.
  intro H. unfold np_mean. destruct l as [|x l]; [reflexivity|].
  rewrite sum_nan; [reflexivity | now left].
Qed.

Lemma round3_nan (x : float) : is_nan x = true -> round3 x = NaN.
Proof.
  destruct x; [reflexivity | discriminate].
Qed.

(** A person's first trip without a valid origin pair puts a NaN in the
    centroid. *)
Lemma invalid_origin_centroid (r : trip_od) (rows : list trip_od) :
  valid_pair (origin_lat r) (origin_lng r) = false ->
  let pts := rounded_points (r :: rows) in
  valid_pair (np_mean (uniq float_eqb (map fst pts)))
             (np_mean (uniq float_eqb (map snd pts))) = false.
Proof.
  intros Hinv pts. unfold valid_pair in *.
  apply andb_false_iff in Hinv. apply andb_false_iff.
  destruct Hinv as [H | H]; apply negb_false_iff in H; [left | right];
    apply negb_false_iff.
  - rewrite np_mean_nan; [reflexivity|]. unfold uniq. apply uniq_keeps_nan.
    right. unfold pts. cbn [rounded_points flat_map app map fst].
    left. now apply round3_nan.
  - rewrite np_mean_nan; [reflexivity|]. unfold uniq. apply uniq_keeps_nan.
    right. unfold pts. cbn [rounded_points flat_map app map snd].
    left. now apply round3_nan.
Qed.

Lemma uniq_nonempty {A : Type} (eqb : A -> A -> bool) (x : A) (l : list A) :
  uniq eqb (x :: l) <> [].
Proof.
  unfold uniq. simpl. intro H.
  pose proof (fold_add_length eqb l (set_add eqb x [])) as Hlen.
  rewrite H in Hlen. unfold set_add in Hlen. simpl in Hlen. lia.
Qed.

(** Without a trip, or with a first trip whose origin pair is not valid,
    there is no radius. *)
Lemma no_valid_pair_absent
      (geodesic_miles : point -> point -> result R)
      (trips_od : list trip_od) (person_id : Z) :
  (forall p c, valid_pair (fst c) (snd c) = false ->
               exists e, geodesic_miles p c = Raise e) ->
  (forall r, In r (person_trips_df trips_od person_id) ->
             valid_pair (origin_lat r) (origin_lng r) = false) ->
  rog_centroid_df geodesic_miles trips_od person_id = None.
Proof.
  intros Hgeo Hinv. unfold rog_centroid_df.
  destruct (person_trips_df trips_od person_id) as [|r rows'] eqn:Erows;
    [reflexivity|].
  destruct (collect_uniq (r :: rows')) as [Hp [Hlat Hlng]].
  rewrite Hp, Hlat, Hlng.
  pose proof (invalid_origin_centroid r rows' (Hinv r (or_introl eq_refl)))
    as Hc.
  cbv zeta in Hc.
  destruct (uniq point_eqb (rounded_points (r :: rows'))) as [|p0 pts] eqn:E.
  { exfalso. cbn [rounded_points flat_map app] in E.
    exact (uniq_nonempty _ _ _ E). }
  unfold rog. cbn [for_each fst snd].
  destruct (Hgeo p0 (_, _) Hc) as [e He]. rewrite He. reflexivity.
Qed.

(** The left merge gives NaN coordinates to a trip without location row,
    so a person none of whose trips has one gets no radius. *)
Lemma merge_left_unlocated (trips_clean : table) :
  Forall (fun r => valid_pair (origin_lat r) (origin_lng r) = false)
         (merge_left trips_clean []).
Proof.
  unfold merge_left. induction trips_clean as [|t l IH]; simpl.
  - constructor.
  - constructor; [reflexivity | exact IH].
Qed.

Lemma unlocated_person_absent
      (geodesic_miles : point -> point -> result R)
      (trips_clean : table) (person_id : Z) :
  (forall p c, valid_pair (fst c) (snd c) = false ->
               exists e, geodesic_miles p c = Raise e) ->
  rog_centroid_df geodesic_miles (merge_left trips_clean []) person_id = None.
Proof.
  intro Hgeo. apply (no_valid_pair_absent _ _ _ Hgeo).
  intros r Hr. unfold person_trips_df in Hr. apply filter_In in Hr.
  destruct Hr as [Hr _].
  pose proof (merge_left_unlocated trips_clean) as Hall.
  rewrite Forall_forall in Hall. now apply Hall.
Qed.

(** A trip that lacks a coordinate puts a NaN in the centroid. *)
Lemma nan_row_centroid (rows : list trip_od) (r : trip_od) :
  In r rows -> lacks_coordinate r = true ->
  valid_pair (np_mean (uniq float_eqb (map fst (rounded_points rows))))
             (np_mean (uniq float_eqb (map snd (rounded_points rows))))
  = false.
Proof.
  intros Hin Hnan.
  assert (Ho : In (round3 (origin_lat r), round3 (origin_lng r))
                  (rounded_points rows)).
  { unfold rounded_points. apply in_flat_map. exists r. split; [assumption|].
    now left. }
  assert (Hd : In (round3 (dest_lat r), round3 (dest_lng r))
                  (rounded_points rows)).
  { unfold rounded_points. apply in_flat_map. exists r. split; [assumption|].
    right. now left. }
  assert (Hlat : forall p, In p (rounded_points rows) -> fst p = NaN ->
                           np_mean (uniq float_eqb (map fst (rounded_points rows)))
                           = NaN).
  { intros p Hp Hfst. apply np_mean_nan. unfold uniq. apply uniq_keeps_nan.
    right. rewrite <- Hfst. now apply in_map. }
  assert (Hlng : forall p, In p (rounded_points rows) -> snd p = NaN ->
                           np_mean (uniq float_eqb (map snd (rounded_points rows)))
                           = NaN).
  { intros p Hp Hsnd. apply np_mean_nan. unfold uniq. apply uniq_keeps_nan.
    right. rewrite <- Hsnd. now apply in_map. }
  unfold lacks_coordinate in Hnan. unfold valid_pair.
  repeat (apply orb_true_iff in Hnan; destruct Hnan as [Hnan | Hnan]).
  - rewrite (Hlat _ Ho (round3_nan _ Hnan)). reflexivity.
  - rewrite (Hlng _ Ho (round3_nan _ Hnan)). apply andb_false_r.
  - rewrite (Hlat _ Hd (round3_nan _ Hnan)). reflexivity.
  - rewrite (Hlng _ Hd (round3_nan _ Hnan)). apply andb_false_r.
Qed.

(** Geopy refusing NaN, one trip that lacks a coordinate leaves the
    person without radius. *)
Lemma nan_coordinate_absent
      (geodesic_miles : point -> point -> result R)
      (trips_od : list trip_od) (person_id : Z) :
  (forall p c, valid_pair (fst c) (snd c) = false ->
               exists e, geodesic_miles p c = Raise e) ->
  (exists r, In r (person_trips_df trips_od person_id)
             /\ lacks_coordinate r = true) ->
  rog_centroid_df geodesic_miles trips_od person_id = None.
Proof.
  intros Hgeo [r [Hin Hnan]]. unfold rog_centroid_df.
  destruct (collect_uniq (person_trips_df trips_od person_id))
    as [Hp [Hlat Hlng]].
  rewrite Hp, Hlat, Hlng.
  pose proof (nan_row_centroid _ r Hin Hnan) as Hc.
  destruct (person_trips_df trips_od person_id) as [|r0 rows'];
    [destruct Hin|].
  destruct (uniq point_eqb (rounded_points (r0 :: rows'))) as [|p0 pts] eqn:E.
  { exfalso. cbn [rounded_points flat_map app] in E.
    exact (uniq_nonempty _ _ _ E). }
  unfold rog. cbn [for_each fst snd].
  destruct (Hgeo p0 (_, _) Hc) as [e He]. rewrite He. reflexivity.
Qed.

(** C6, as the code has it: for a person with at least one unique rounded
    point for whom geopy returns a distance from every unique point to
    the centroid, the radius of gyration is the square root of the mean
    of the squared geodesic distances (miles) of the unique points to the
    centroid; the centroid's latitude is the mean of the set of unique
    rounded latitudes and its longitude the mean of the set of unique
    rounded longitudes, each over its own set of values; coordinates are
    rounded to 3 decimals before they are compared.  [ds] are the
    distances geopy returns.  When a trip of the person lacks a coordinate
    the centroid is NaN, geopy returns no distance and the result is
    absent, whatever other points the person has. *)
Theorem rog_is_rms_distance
        (geodesic_miles : point -> point -> result R)
        (trips_od : list trip_od) (person_id : Z) :
  let rows := person_trips_df trips_od person_id in
  let pts := uniq point_eqb (rounded_points rows) in
  let centroid_lat := np_mean (uniq float_eqb (map fst (rounded_points rows))) in
  let centroid_lng := np_mean (uniq float_eqb (map snd (rounded_points rows))) in
  (forall ds,
      pts <> [] ->
      Forall2 (fun p d => geodesic_miles p (centroid_lat, centroid_lng) = Ok d)
              pts ds ->
      rog_centroid_df geodesic_miles trips_od person_id
      = Some (sqrt (mean_of_squares ds)))
  /\ ((forall p c, valid_pair (fst c) (snd c) = false ->
                   exists e, geodesic_miles p c = Raise e) ->
      (exists r, In r rows /\ lacks_coordinate r = true) ->
      rog_centroid_df geodesic_miles trips_od person_id = None).
Proof.
  intros rows pts centroid_lat centroid_lng. split.
  - intros ds Hne Hds.
    unfold rog_centroid_df. fold rows.
    destruct (collect_uniq rows) as [Hp [Hlat Hlng]].
    rewrite Hp, Hlat, Hlng. fold pts centroid_lat centroid_lng.
    rewrite (rog_value geodesic_miles pts (centroid_lng, centroid_lat) ds Hne Hds).
    reflexivity.
  - intros Hgeo Hnan. now apply nan_coordinate_absent.
Qed.


(** *** The statements on the stand-in distance *)

Lemma taxicab_refuses_nan (p c : point) :
  valid_pair (fst c) (snd c) = false -> exists e, taxicab p c = Raise e.
Proof.
  intro H. exists ValueError. unfold taxicab. rewrite H.
  now rewrite andb_false_r.
Qed.


Lemma taxicab_distances (pts : list point) (c : point) :
  forallb (fun p => valid_pair (fst p) (snd p)) pts = true ->
  valid_pair (fst c) (snd c) = true ->
  Forall2 (fun p d => taxicab p c = Ok d) pts
          (map (fun p => taxicab_distance p c) pts).
Proof.
  intros Hpts Hc. induction pts as [|p pts IH]; simpl; [constructor|].
  simpl in Hpts. apply andb_true_iff in Hpts. destruct Hpts as [Hp Hpts].
  constructor; [|now apply IH].
  unfold taxicab. now rewrite Hp, Hc.
Qed.

Lemma rog_is_rms_distance_witness :
  let rows := person_trips_df sample_trips_od 3 in
  let pts := uniq point_eqb (rounded_points rows) in
  let centroid :=
    (np_mean (uniq float_eqb (map fst (rounded_points rows))),
     np_mean (uniq float_eqb (map snd (rounded_points rows)))) in
  List.length pts = 3%nat
  /\ rog_centroid_df taxicab sample_trips_od 3
     = Some (sqrt (mean_of_squares
                     (map (fun p => taxicab_distance p centroid) pts)))
  /\ rog_centroid_df taxicab mixed_trips_od 4 = None.
Proof.
  intros rows pts centroid. split; [reflexivity|]. split.
  - apply (proj1 (rog_is_rms_distance taxicab sample_trips_od 3)).
    + discriminate.
    + apply taxicab_distances; reflexivity.
  - apply (proj2 (rog_is_rms_distance taxicab mixed_trips_od 4)).
    + exact taxicab_refuses_nan.
    + exists (place 4 NaN NaN NaN NaN). split; [|reflexivity].
      right. now left.
Defined.

(** C6 as stated fails: the person has unique rounded points, one of
    them with both coordinates, and no radius: the trip without location
    row makes the centroid NaN, which geopy refuses. *)
Lemma rog_absent_despite_points :
  let rows := person_trips_df mixed_trips_od 4 in
  In (Fin 47.606, Fin (-122.332)) (uniq point_eqb (rounded_points rows))
  /\ rog_centroid_df taxicab mixed_trips_od 4 = None
  /\ ~ (forall geodesic_miles : point -> point -> result R,
           (forall p c, valid_pair (fst c) (snd c) = false ->
                        exists e, geodesic_miles p c = Raise e) ->
           exists v, rog_centroid_df geodesic_miles mixed_trips_od 4 = Some v).
Proof.
  intro rows.
  assert (Hnone : rog_centroid_df taxicab mixed_trips_od 4 = None).
  { apply (nan_coordinate_absent taxicab mixed_trips_od 4).
    - exact taxicab_refuses_nan.
    - exists (place 4 NaN NaN NaN NaN). split; [|reflexivity].
      right. now left. }
  split; [|split].
  - vm_compute. now left.
  - exact Hnone.
  - intro H. destruct (H taxicab taxicab_refuses_nan) as [v Hv].
    rewrite Hnone in Hv. discriminate.
Qed.


(** The centroid of the third person is not the mean of the unique
    points: the longitude -122.332 is on two of the three points and
    counts once in the mean of the unique longitudes. *)
Lemma centroid_means_are_independent :
  let u := fold_left collect (person_trips_df sample_trips_od 3) no_uniques in
  List.length (unique_pts u) = 3%nat
  /\ List.length (unique_lng u) = 2%nat
  /\ float_eqb (np_mean (unique_lng u)) (np_mean (map snd (unique_pts u)))
     = false.
Proof.
  vm_compute. repeat split.
Qed.

End Gyration.

(** ** The cleaned table as the later cells receive it *)

Module CleanedTable.

Import Py Strptime Cleaner.

(** [len(trips_clean)/len(trips)*100], the share printed after the filter. *)
Definition retained (trips_clean trips : table) : result Q :=
  match List.length trips with
  | O => Raise ZeroDivisionError
  | S _ =>
      Ok (inject_Z (Z.of_nat (List.length trips_clean))
          / inject_Z (Z.of_nat (List.length trips)) * 100)
  end.

(** The cell, without its last character, is a timestamp in the format. *)
Definition parses (cell : string) : Prop :=
  exists t, strptime (removelast (list_ascii_of_string cell)) date_format = Ok t.

(** The row with its two timestamp strings exchanged. *)
Definition swap_times (r : trip) : trip :=
  {| trip_id := trip_id r;
     household_id := household_id r;
     person_dim_id := person_dim_id r;
     daynum := daynum r;
     survey_year := survey_year r;
     age := age r;
     origin_purpose := origin_purpose r;
     dest_purpose := dest_purpose r;
     mode_simple := mode_simple r;
     trip_path_distance := trip_path_distance r;
     arrival_time_string := depart_time_string r;
     depart_time_string := arrival_time_string r;
     travel_time_calc := travel_time_calc r |}.

(** Two runs end alike: both raise, or both return equal rationals. *)
Definition same_time (m m' : result Q) : Prop :=
  match m, m' with
  | Ok v, Ok v' => v == v'
  | Raise _, Raise _ => True
  | _, _ => False
  end.

Lemma for_each_Ok_inv {A B : Type} (f : A -> result B) (l : list A) (ys : list B) :
  for_each f l = Ok ys -> Forall2 (fun x y => f x = Ok y) l ys.
Proof.
  revert ys. induction l as [|x l IH]; intros ys H; cbn [for_each bind] in H.
  - injection H as <-. constructor.
  - destruct (f x) as [y|] eqn:Ex; cbn [bind] in H; [|discriminate].
    destruct (for_each f l) as [ys'|]; cbn [bind] in H; [|discriminate].
    injection H as <-. constructor; [assumption | now apply IH].
Qed.

Lemma for_each_all_Ok {A B : Type} (f : A -> result B) (l : list A) :
  (forall x, In x l -> exists y, f x = Ok y) ->
  exists ys, for_each f l = Ok ys.
Proof.
  induction l as [|x l IH]; intro H; cbn [for_each bind].
  - now exists [].
  - destruct (H x (or_introl eq_refl)) as [y Hy]. rewrite Hy. cbn [bind].
    destruct IH as [ys Hys]; [intros z Hz; apply H; now right|].
    rewrite Hys. cbn [bind]. now exists (y :: ys).
Qed.

(** What a returned travel time says about the row. *)
Lemma travel_time_manual_Ok (r : trip) (v : Q) :
  travel_time_manual r = Ok v ->
  exists sa sd a d,
    arrival_time_string r = Some sa /\ depart_time_string r = Some sd
    /\ strptime (removelast (list_ascii_of_string sa)) date_format = Ok a
    /\ strptime (removelast (list_ascii_of_string sd)) date_format = Ok d
    /\ v == inject_Z (Z.abs (micros a - micros d)) / inject_Z 60000000.
Proof.
  intro H.
  destruct (arrival_time_string r) as [sa|] eqn:Ea;
    [|unfold travel_time_manual, drop_last_char in H; rewrite Ea in H;
      discriminate].
  destruct (depart_time_string r) as [sd|] eqn:Ed;
    [|unfold travel_time_manual, drop_last_char in H; rewrite Ea, Ed in H;
      discriminate].
  destruct (travel_time_manual_cases r sa sd Ea Ed)
    as [[a [d [t [t' [Hpa [Hpd [_ [_ [Htot Htt]]]]]]]]] | [_ Htt]];
    [|congruence].
  exists sa, sd, a, d. repeat split; try assumption.
  rewrite Htt in H. injection H as <-.
  now rewrite total_seconds_minutes, Htot.
Qed.

Lemma travel_time_nonneg (r : trip) (v : Q) :
  travel_time_manual r = Ok v -> 0 <= v.
Proof.
  intro H. destruct (travel_time_manual_Ok r v H)
    as [sa [sd [a [d [_ [_ [_ [_ Hv]]]]]]]].
  rewrite Hv. apply Qle_shift_div_l; [reflexivity|].
  rewrite Qmult_0_l. unfold Qle; simpl. lia.
Qed.

Lemma settled_column (r : trip) (v : Q) :
  set_travel_time_calc v r = r -> travel_time_calc r = Some v.
Proof.
  intro H. rewrite <- H. reflexivity.
Qed.

(** X1: every row of a cleaned table has both timestamp strings, carries
    in [travel_time_calc] the travel time its strings give, between 0
    and 120 minutes (120 excluded), and is of a day from 1 to 5. *)
Theorem cleaned_rows_invariant (trips out : table) :
  cleaner trips = Ok out ->
  Forall (fun r =>
            exists v,
              travel_time_calc r = Some v
              /\ travel_time_manual r = Ok v
              /\ 0 <= v /\ v < 120
              /\ (1 <= daynum r <= 5)%Z
              /\ arrival_time_string r <> None
              /\ depart_time_string r <> None) out.
Proof.
  unfold cleaner. intro H.
  destruct (apply_travel_time (dropna_time_strings trips)) as [t1|] eqn:E1;
    cbn [bind] in H; [|discriminate].
  injection H as <-.
  pose proof (apply_travel_time_settled _ _ E1) as Hs.
  rewrite Forall_forall in Hs. apply Forall_forall. intros r Hr.
  unfold filter_workday_trips in Hr. apply filter_rows_In in Hr.
  destruct Hr as [Hin [[v [Hcol Hlt]] Hday]].
  destruct (Hs r Hin) as [v' [Hv' Hset]].
  pose proof (settled_column r v' Hset) as Hcol'.
  rewrite Hcol in Hcol'. injection Hcol' as <-.
  exists v. split; [assumption|]. split; [assumption|].
  split; [exact (travel_time_nonneg r v Hv')|]. split; [assumption|].
  split; [simpl in Hday; lia|].
  destruct (travel_time_manual_Ok r v Hv') as [sa [sd [_ [_ [-> [-> _]]]]]].
  split; discriminate.
Qed.

Lemma cleaned_rows_invariant_witness :
  exists out,
    cleaner raw_sample = Ok out
    /\ Forall (fun r => exists v, travel_time_calc r = Some v
                                  /\ 0 <= v /\ v < 120) out.
Proof.
  eexists. split; [vm_compute; reflexivity|].
  eapply Forall_impl;
    [|apply (cleaned_rows_invariant raw_sample); vm_compute; reflexivity].
  intros r [v [H1 [_ [H2 [H3 _]]]]]. exists v. auto.
Defined.

Lemma for_each_Ok_all {A B : Type} (f : A -> result B) (l : list A) (ys : list B) :
  for_each f l = Ok ys -> forall x, In x l -> exists y, f x = Ok y.
Proof.
  revert ys. induction l as [|x l IH]; intros ys H z Hz; [destruct Hz|].
  cbn [for_each bind] in H.
  destruct (f x) as [y|] eqn:Ex; cbn [bind] in H; [|discriminate].
  destruct (for_each f l) as [ys'|]; cbn [bind] in H; [|discriminate].
  destruct Hz as [<- | Hz]; [now exists y | now apply (IH ys')].
Qed.

Lemma for_each_Raise_inv {A B : Type} (f : A -> result B) (l : list A) (e : exn) :
  for_each f l = Raise e -> exists x, In x l /\ f x = Raise e.
Proof.
  induction l as [|x l IH]; intro H; cbn [for_each bind] in H; [discriminate|].
  destruct (f x) as [y|ex] eqn:Ex; cbn [bind] in H.
  - destruct (for_each f l) as [ys|e'] eqn:El; cbn [bind] in H; [discriminate|].
    injection H as ->. destruct (IH eq_refl) as [z [Hz Hfz]].
    exists z. split; [now right | assumption].
  - injection H as ->. exists x. split; [now left | assumption].
Qed.

Lemma for_each_length {A B : Type} (f : A -> result B) (l : list A) (ys : list B) :
  for_each f l = Ok ys -> List.length ys = List.length l.
Proof.
  intro H. pose proof (for_each_Ok_inv f l ys H) as H2. clear H.
  induction H2; simpl; congruence.
Qed.

Lemma filter_shorter {A : Type} (p : A -> bool) (l : list A) :
  (List.length (filter p l) <= List.length l)%nat.
Proof.
  induction l as [|x l IH]; simpl; [lia|]. destruct (p x); simpl; lia.
Qed.

Lemma apply_travel_time_rows (t out : table) :
  apply_travel_time t = Ok out ->
  forall r', In r' out ->
             exists r v, In r t /\ travel_time_manual r = Ok v
                         /\ r' = set_travel_time_calc v r.
Proof.
  unfold apply_travel_time. intro H.
  pose proof (for_each_Ok_inv _ _ _ H) as H2. clear H.
  induction H2 as [|x y l ys Hx _ IH]; intros r' Hr'; [destruct Hr'|].
  destruct Hr' as [<- | Hr'].
  - destruct (travel_time_manual x) as [v|] eqn:Ev; cbn [bind] in Hx;
      [|discriminate].
    injection Hx as <-. exists x, v. repeat split; [now left | assumption].
  - destruct (IH r' Hr') as [r [v [Hin Hrest]]].
    exists r, v. split; [now right | assumption].
Qed.

Lemma cleaner_shorter (trips out : table) :
  cleaner trips = Ok out -> (List.length out <= List.length trips)%nat.
Proof.
  unfold cleaner. intro H.
  destruct (apply_travel_time (dropna_time_strings trips)) as [t1|] eqn:E1;
    cbn [bind] in H; [|discriminate].
  injection H as <-.
  pose proof (filter_shorter
                (fun r => cell_lt (travel_time_calc r) 120
                          && isin (daynum r) [1; 2; 3; 4; 5]%Z) t1) as H1.
  pose proof (for_each_length _ _ _ E1) as H2.
  pose proof (filter_shorter
                (fun r => notna (depart_time_string r)
                          && notna (arrival_time_string r)) trips) as H3.
  unfold filter_workday_trips, filter_rows, dropna_time_strings in *. lia.
Qed.

(** X2: a cleaned table has no more rows than the raw one, and each of
    its rows is a raw row that had both timestamp strings, changed in the
    column [travel_time_calc] only. *)
Theorem cleaner_keeps_input_rows (trips out : table) :
  cleaner trips = Ok out ->
  (List.length out <= List.length trips)%nat
  /\ (forall r', In r' out ->
                 exists r v, In r trips
                             /\ arrival_time_string r <> None
                             /\ depart_time_string r <> None
                             /\ r' = set_travel_time_calc v r).
Proof.
  intro H. split; [exact (cleaner_shorter trips out H)|].
  unfold cleaner in H.
  destruct (apply_travel_time (dropna_time_strings trips)) as [t1|] eqn:E1;
    cbn [bind] in H; [|discriminate].
  injection H as <-.
  intros r' Hr'. unfold filter_workday_trips, filter_rows in Hr'.
  apply filter_In in Hr'. destruct Hr' as [Hr' _].
  destruct (apply_travel_time_rows _ _ E1 r' Hr') as [r [v [Hin [_ Heq]]]].
  apply dropna_In in Hin. destruct Hin as [Hin [Ha Hd]].
  now exists r, v.
Qed.

Lemma cleaner_keeps_input_rows_witness :
  exists out, cleaner raw_sample = Ok out
              /\ (List.length out <= 4)%nat.
Proof.
  eexists. split; [vm_compute; reflexivity|].
  apply (cleaner_keeps_input_rows raw_sample). vm_compute. reflexivity.
Defined.

Lemma share_bounds (a b : nat) :
  (a <= S b)%nat ->
  0 <= inject_Z (Z.of_nat a) / inject_Z (Z.of_nat (S b)) * 100 <= 100.
Proof.
  intro H.
  assert (Hb : 0 < inject_Z (Z.of_nat (S b))).
  { unfold Qlt; simpl. lia. }
  assert (Ha : 0 <= inject_Z (Z.of_nat a)).
  { unfold Qle; simpl. lia. }
  assert (H1 : inject_Z (Z.of_nat a) / inject_Z (Z.of_nat (S b)) <= 1).
  { apply Qle_shift_div_r; [assumption|]. rewrite Qmult_1_l.
    rewrite <- Zle_Qle. lia. }
  assert (H0 : 0 <= inject_Z (Z.of_nat a) / inject_Z (Z.of_nat (S b))).
  { apply Qle_shift_div_l; [assumption|]. now rewrite Qmult_0_l. }
  split.
  - apply Qmult_le_0_compat; [assumption | discriminate].
  - setoid_replace 100 with (1 * 100) at 2 by reflexivity.
    apply Qmult_le_compat_r; [assumption | discriminate].
Qed.

(** X3: the share printed after the filter is a number between 0 and 100
    when the raw table has a row, and the cell stops on ZeroDivisionError
    when the raw table is empty. *)
Theorem retained_share_bounds (trips out : table) :
  cleaner trips = Ok out ->
  (trips = [] -> retained out trips = Raise ZeroDivisionError)
  /\ (trips <> [] -> exists p, retained out trips = Ok p /\ 0 <= p <= 100).
Proof.
  intro H. pose proof (cleaner_shorter trips out H) as Hlen. split.
  - intros ->. reflexivity.
  - intro Hne. unfold retained.
    destruct trips as [|r trips']; [congruence|]. cbn [List.length] in *.
    eexists. split; [reflexivity|]. now apply share_bounds.
Qed.

Lemma retained_share_bounds_witness :
  exists out p, cleaner raw_sample = Ok out
                /\ retained out raw_sample = Ok p /\ 0 <= p <= 100.
Proof.
  eexists.
  destruct (retained_share_bounds
              raw_sample _ ltac:(vm_compute; reflexivity)) as [_ H].
  destruct H as [p Hp]; [discriminate|].
  exists p. split; [reflexivity | exact Hp].
Defined.

(** X4: on a raw table in which some row has both timestamp strings, and
    whose timestamp strings are made of ASCII characters, the Cleaner
    returns a table exactly when every row that has both strings has two
    strings that parse; when it does not, the exception is a ValueError,
    never another one. *)
Theorem cleaner_succeeds_iff (trips : table) :
  dropna_time_strings trips <> [] ->
  (forall r s, In r trips ->
               arrival_time_string r = Some s \/ depart_time_string r = Some s ->
               ascii_only s = true) ->
  ((exists out, cleaner trips = Ok out)
   <-> (forall r sa sd,
           In r trips ->
           arrival_time_string r = Some sa ->
           depart_time_string r = Some sd ->
           parses sa /\ parses sd))
  /\ (forall e, cleaner trips = Raise e -> e = ValueError).
Proof.
  intros _ _.
  unfold cleaner, parses. split; [split|].
  - intros [out H] r sa sd Hin Ha Hd.
    destruct (apply_travel_time (dropna_time_strings trips)) as [t1|] eqn:E1;
      cbn [bind] in H; [|discriminate].
    assert (Hin' : In r (dropna_time_strings trips)).
    { apply dropna_In. rewrite Ha, Hd. repeat split; [assumption| |];
        discriminate. }
    destruct (for_each_Ok_all _ _ _ E1 r Hin') as [y Hy].
    destruct (travel_time_manual r) as [v|] eqn:Ev; cbn [bind] in Hy;
      [|discriminate].
    destruct (travel_time_manual_Ok r v Ev)
      as [sa' [sd' [a [d [Ha' [Hd' [Hpa [Hpd _]]]]]]]].
    rewrite Ha in Ha'. rewrite Hd in Hd'.
    injection Ha' as <-. injection Hd' as <-. split; eauto.
  - intro Hall.
    destruct (for_each_all_Ok
                (fun r => v <- travel_time_manual r ;;
                          Ok (set_travel_time_calc v r))
                (dropna_time_strings trips)) as [ys Hys].
    { intros r Hr. apply dropna_In in Hr. destruct Hr as [Hin [Ha Hd]].
      destruct (arrival_time_string r) as [sa|] eqn:Ea; [|congruence].
      destruct (depart_time_string r) as [sd|] eqn:Ed; [|congruence].
      destruct (Hall r sa sd Hin Ea Ed) as [[a Hpa] [d Hpd]].
      destruct (travel_time_manual_cases r sa sd Ea Ed)
        as [[a' [d' [t [t' [_ [_ [_ [_ [_ Htt]]]]]]]]] | [[Hn | Hn] _]].
      - rewrite Htt. cbn [bind]. eauto.
      - exfalso. exact (Hn a Hpa).
      - exfalso. exact (Hn d Hpd). }
    unfold apply_travel_time. rewrite Hys. cbn [bind]. eauto.
  - intros e H.
    destruct (apply_travel_time (dropna_time_strings trips)) as [t1|e'] eqn:E1;
      cbn [bind] in H; [discriminate|].
    injection H as ->.
    destruct (for_each_Raise_inv _ _ _ E1) as [r [Hr Hraise]].
    apply dropna_In in Hr. destruct Hr as [_ [Ha Hd]].
    destruct (stored_time_cases r Ha Hd) as [[v Hv] | Hv];
      rewrite Hv in Hraise; cbn [bind] in Hraise; congruence.
Qed.

Lemma cleaner_succeeds_iff_witness :
  exists out, cleaner raw_sample = Ok out.
Proof.
  assert (Hrows : dropna_time_strings raw_sample <> []) by discriminate.
  assert (Hascii : forall r s,
             In r raw_sample ->
             arrival_time_string r = Some s \/ depart_time_string r = Some s ->
             ascii_only s = true).
  { intros r s Hin Hs. simpl in Hin.
    destruct Hin as [<- | [<- | [<- | [<- | []]]]];
      destruct Hs as [Hs | Hs]; try discriminate Hs;
      injection Hs as <-; reflexivity. }
  apply (proj1 (cleaner_succeeds_iff raw_sample Hrows Hascii)).
  intros r sa sd Hin Ha Hd. simpl in Hin.
  destruct Hin as [<- | [<- | [<- | [<- | []]]]];
    try discriminate Hd;
    injection Ha as <-; injection Hd as <-;
    split; eexists; vm_compute; reflexivity.
Defined.

(** X5: exchanging the arrival and the departure string of a row does
    not change its travel time, nor whether the computation raises. *)
Theorem travel_time_symmetric (r : trip) :
  same_time (travel_time_manual r) (travel_time_manual (swap_times r)).
Proof.
  destruct (arrival_time_string r) as [sa|] eqn:Ea;
    destruct (depart_time_string r) as [sd|] eqn:Ed.
  - assert (Ea' : arrival_time_string (swap_times r) = Some sd) by exact Ed.
    assert (Ed' : depart_time_string (swap_times r) = Some sa) by exact Ea.
    destruct (travel_time_manual_cases r sa sd Ea Ed)
      as [[a [d [t [t' [Hpa [Hpd [_ [_ [Htot Htt]]]]]]]]] | [Hn Htt]];
      destruct (travel_time_manual_cases (swap_times r) sd sa Ea' Ed')
        as [[a2 [d2 [t2 [t2' [Hpa2 [Hpd2 [_ [_ [Htot2 Htt2]]]]]]]]]
           | [Hn2 Htt2]];
      rewrite Htt, Htt2; cbn [same_time]; try exact I.
    + rewrite Hpd in Hpa2. rewrite Hpa in Hpd2.
      injection Hpa2 as <-. injection Hpd2 as <-.
      rewrite !total_seconds_minutes, Htot, Htot2.
      replace (Z.abs (micros d - micros a)) with (Z.abs (micros a - micros d))
        by lia.
      reflexivity.
    + destruct Hn2 as [Hn2 | Hn2]; [exact (Hn2 d Hpd) | exact (Hn2 a Hpa)].
    + destruct Hn as [Hn | Hn]; [exact (Hn d2 Hpd2) | exact (Hn a2 Hpa2)].
  - unfold travel_time_manual, drop_last_char. cbn [swap_times arrival_time_string depart_time_string].
    rewrite Ea, Ed. exact I.
  - unfold travel_time_manual, drop_last_char. cbn [swap_times arrival_time_string depart_time_string].
    rewrite Ea, Ed. exact I.
  - unfold travel_time_manual, drop_last_char. cbn [swap_times arrival_time_string depart_time_string].
    rewrite Ea, Ed. exact I.
Qed.

(** X6: a row whose two strings parse passes the duration test of the
    filter exactly when its two timestamps are less than two hours
    (7 200 000 000 microseconds) apart, and its travel time is 0 exactly
    when they are the same instant. *)
Theorem under_two_hours_iff (r : trip) (sa sd : string) (a d : datetime) (v : Q) :
  arrival_time_string r = Some sa ->
  depart_time_string r = Some sd ->
  strptime (removelast (list_ascii_of_string sa)) date_format = Ok a ->
  strptime (removelast (list_ascii_of_string sd)) date_format = Ok d ->
  travel_time_manual r = Ok v ->
  (cell_lt (Some v) 120 = true
   <-> (Z.abs (micros a - micros d) < 7200000000)%Z)
  /\ (v == 0 <-> micros a = micros d).
Proof.
  intros Ha Hd Hpa Hpd Hv.
  destruct (travel_time_manual_Ok r v Hv)
    as [sa' [sd' [a' [d' [Ha' [Hd' [Hpa' [Hpd' Heq]]]]]]]].
  rewrite Ha in Ha'. rewrite Hd in Hd'.
  injection Ha' as <-. injection Hd' as <-.
  rewrite Hpa in Hpa'. rewrite Hpd in Hpd'.
  injection Hpa' as <-. injection Hpd' as <-.
  cbn [cell_lt]. rewrite Qltb_lt, Heq. split.
  - unfold Qlt, Qdiv, Qmult, Qinv, inject_Z; simpl. lia.
  - unfold Qeq, Qdiv, Qmult, Qinv, inject_Z; simpl. lia.
Qed.

Lemma under_two_hours_iff_witness :
  exists v, travel_time_manual good_row = Ok v
            /\ cell_lt (Some v) 120 = true.
Proof.
  eexists. split; [vm_compute; reflexivity|].
  apply (under_two_hours_iff
           good_row
           "Date: 2017-04-05 08:45:30.000Z"
           "Date: 2017-04-05 08:15:00.000Z"
           (mk_datetime 2017 4 5 8 45 30 0)
           (mk_datetime 2017 4 5 8 15 0 0) _
           eq_refl eq_refl eq_refl eq_refl eq_refl).
  vm_compute. reflexivity.
Defined.

End CleanedTable.

From Stdlib Require Import Sorted.

(** ** The table of person-days *)

Module PersonDays.

Import Py Mobility.

Definition key : Type := (Z * Z)%type.

Definition key_of (t : trip) : key := (person_dim_id t, daynum t).

Definition key_ltb (a b : key) : bool :=
  (fst a <? fst b)%Z || ((fst a =? fst b)%Z && (snd a <? snd b)%Z).

Definition key_eqb (a b : key) : bool :=
  (fst a =? fst b)%Z && (snd a =? snd b)%Z.

(** [groupby(['person_dim_id', 'daynum'])] keeps each pair of key values
    once and lists the pairs in increasing order. *)
Fixpoint insert_key (k : key) (ks : list key) : list key :=
  match ks with
  | [] => [k]
  | k' :: rest =>
      if key_ltb k k' then k :: ks
      else if key_eqb k k' then ks
      else k' :: insert_key k rest
  end.

Definition group_keys (t : table) : list key :=
  fold_left (fun ks r => insert_key (key_of r) ks) t [].

(** [trips_clean.groupby([...]).size().reset_index()[[...]]] *)
Definition person_day_df (trips_clean : table) : list person_day :=
  map (fun k => mk_person_day (fst k) (snd k)) (group_keys trips_clean).

(** [person_day_df.apply(mobility_metrics, axis=1)], one row of metrics
    beside each key.  Without any person-day the list is empty here, where
    pandas refuses the assignment of the four columns. *)
Definition person_day_metrics (trips_clean : table) : list (person_day * metrics) :=
  map (fun row => (row, mobility_metrics trips_clean row))
      (person_day_df trips_clean).

(** A row of [persons], with the two columns the merge keeps. *)
Record person : Type := mk_person {
  person_id : Z;
  gender : option string
}.

(** A row of [person_day_df_clean] after the merge. *)
Record person_day_gender : Type := mk_person_day_gender {
  pdg_row : person_day * metrics;
  pdg_person_id : option Z;
  pdg_gender : option string
}.

(** [person_day_df[person_day_df.vmt < bound]] *)
Definition vmt_below (bound : Q) (l : list (person_day * metrics))
  : list (person_day * metrics) :=
  filter (fun row => Cleaner.Qltb (m_vmt (snd row)) bound) l.

(** The rows the left merge makes of one person-day. *)
Definition with_gender (persons : list person) (row : person_day * metrics)
  : list person_day_gender :=
  match filter (fun p => (person_id p =? pd_person_dim_id (fst row))%Z) persons with
  | [] => [mk_person_day_gender row None None]
  | found =>
      map (fun p => mk_person_day_gender row (Some (person_id p)) (gender p))
          found
  end.

(** [.merge(persons[["person_id", "gender"]], left_on='person_dim_id',
    right_on="person_id", how='left')] *)
Definition merge_gender (l : list (person_day * metrics)) (persons : list person)
  : list person_day_gender :=
  flat_map (with_gender persons) l.

(** The three cells that lead to [person_day_df_clean]: outliers above
    500 miles dropped, gender merged in, outliers above 100 miles dropped. *)
Definition person_day_df_clean (l : list (person_day * metrics))
           (persons : list person) : list person_day_gender :=
  filter (fun g => Cleaner.Qltb (m_vmt (snd (pdg_row g))) 100)
         (merge_gender (vmt_below 500 l) persons).

Definition person_day_df_clean_fem (clean : list person_day_gender)
  : list person_day_gender :=
  filter (fun g => str_eq (pdg_gender g) "Female") clean.

Definition person_day_df_clean_nonfem (clean : list person_day_gender)
  : list person_day_gender :=
  filter (fun g => str_ne (pdg_gender g) "Female") clean.

(** The mask of [trips_day_person] for the key [k]. *)
Definition matches (k : key) (t : trip) : bool :=
  (person_dim_id t =? fst k)%Z && (daynum t =? snd k)%Z.

(** The flag of the walk, as a number. *)
Definition flag (w : walk) : nat := if start_home w then 1%nat else 0%nat.

Definition sum_nat (l : list nat) : nat := fold_right Nat.add 0%nat l.

Definition leaves_home (t : trip) : bool :=
  str_eq (origin_purpose t) "Went home".

(** The trip ends at home and did not start there. *)
Definition comes_home (t : trip) : bool :=
  str_eq (dest_purpose t) "Went home"
  && negb (str_eq (origin_purpose t) "Went home").

Definition count {A : Type} (p : A -> bool) (l : list A) : nat :=
  List.length (filter p l).

Definition key_lt (a b : key) : Prop := key_ltb a b = true.

Definition pd_key (row : person_day) : key :=
  (pd_person_dim_id row, pd_daynum row).



(** *** The keys *)

Lemma key_eqb_eq (a b : key) : key_eqb a b = true <-> a = b.
Proof.
  destruct a as [a1 a2], b as [b1 b2]. unfold key_eqb; simpl.
  rewrite andb_true_iff, !Z.eqb_eq. split.
  - intros [-> ->]. reflexivity.
  - intro H. injection H as -> ->. split; reflexivity.
Qed.

Lemma key_lt_irrefl (a : key) : ~ key_lt a a.
Proof.
  unfold key_lt, key_ltb. intro H.
  apply orb_true_iff in H. destruct H as [H | H].
  - apply Z.ltb_lt in H. lia.
  - apply andb_true_iff in H. destruct H as [_ H]. apply Z.ltb_lt in H. lia.
Qed.

Lemma key_lt_trans (a b c : key) : key_lt a b -> key_lt b c -> key_lt a c.
Proof.
  unfold key_lt, key_ltb. intros H1 H2.
  apply orb_true_iff in H1. apply orb_true_iff in H2. apply orb_true_iff.
  rewrite !andb_true_iff, !Z.ltb_lt, !Z.eqb_eq in *. lia.
Qed.

Lemma key_total (a b : key) :
  key_ltb a b = false -> key_eqb a b = false -> key_lt b a.
Proof.
  unfold key_lt, key_ltb, key_eqb. intros H1 H2.
  apply orb_false_iff in H1. destruct H1 as [H1 H1'].
  apply Z.ltb_ge in H1. apply orb_true_iff.
  rewrite andb_true_iff, !Z.ltb_lt, Z.eqb_eq.
  apply andb_false_iff in H1'. apply andb_false_iff in H2.
  rewrite !Z.eqb_neq, Z.ltb_ge in *. lia.
Qed.

Lemma insert_key_In (k x : key) (ks : list key) :
  In x (insert_key k ks) <-> x = k \/ In x ks.
Proof.
  induction ks as [|k' rest IH]; simpl.
  - intuition.
  - destruct (key_ltb k k'); [simpl; intuition|].
    destruct (key_eqb k k') eqn:E.
    + apply key_eqb_eq in E. subst k'. simpl. intuition.
    + simpl. rewrite IH. intuition.
Qed.

Lemma insert_key_sorted (k : key) (ks : list key) :
  StronglySorted key_lt ks -> StronglySorted key_lt (insert_key k ks).
Proof.
  induction 1 as [|k' rest Hs IH Hall]; simpl.
  - constructor; constructor.
  - destruct (key_ltb k k') eqn:Elt.
    + constructor; [now constructor|].
      constructor; [exact Elt|].
      eapply Forall_impl; [|exact Hall]. intros z Hz.
      exact (key_lt_trans _ _ _ Elt Hz).
    + destruct (key_eqb k k') eqn:Eeq; [now constructor|].
      constructor; [assumption|].
      apply Forall_forall. intros z Hz. apply insert_key_In in Hz.
      destruct Hz as [-> | Hz].
      * now apply key_total.
      * rewrite Forall_forall in Hall. now apply Hall.
Qed.

Lemma sorted_NoDup (ks : list key) : StronglySorted key_lt ks -> NoDup ks.
Proof.
  induction 1 as [|k rest _ IH Hall]; constructor; [|assumption].
  intro Hin. rewrite Forall_forall in Hall.
  exact (key_lt_irrefl k (Hall k Hin)).
Qed.

Lemma fold_insert_sorted (t : table) (ks : list key) :
  StronglySorted key_lt ks ->
  StronglySorted key_lt (fold_left (fun ks r => insert_key (key_of r) ks) t ks).
Proof.
  revert ks. induction t as [|r t IH]; intros ks H; simpl; [assumption|].
  apply IH. now apply insert_key_sorted.
Qed.

Lemma fold_insert_In (t : table) (ks : list key) (x : key) :
  In x (fold_left (fun ks r => insert_key (key_of r) ks) t ks)
  <-> In x ks \/ exists r, In r t /\ key_of r = x.
Proof.
  revert ks. induction t as [|r t IH]; intro ks; simpl.
  - split; [now left|]. intros [H | [r [[] _]]]. assumption.
  - rewrite IH, insert_key_In. split.
    + intros [[-> | H] | [r' [Hr' Hk]]].
      * right. exists r. auto.
      * now left.
      * right. exists r'. auto.
    + intros [H | [r' [[<- | Hr'] Hk]]].
      * left. now right.
      * left. left. now symmetry.
      * right. exists r'. auto.
Qed.

Lemma group_keys_sorted (t : table) : StronglySorted key_lt (group_keys t).
Proof.
  apply fold_insert_sorted. constructor.
Qed.

Lemma group_keys_In (t : table) (x : key) :
  In x (group_keys t) <-> exists r, In r t /\ key_of r = x.
Proof.
  unfold group_keys. rewrite fold_insert_In. simpl. tauto.
Qed.

Lemma NoDup_map_injective {A B : Type} (f : A -> B) (l : list A) :
  (forall x y, f x = f y -> x = y) -> NoDup l -> NoDup (map f l).
Proof.
  intros Hinj H. induction H as [|x l Hx _ IH]; simpl; constructor;
    [|assumption].
  intro Hin. apply in_map_iff in Hin. destruct Hin as [y [Hy Hin]].
  apply Hinj in Hy. now subst y.
Qed.

(** X8: the table of person-days has one row for each (person, day) pair
    that some trip carries and no row for any other pair; no pair comes
    twice, and the rows are in increasing order of person, then day. *)
Theorem person_days_are_the_keys (trips_clean : table) :
  (forall p d,
      In (mk_person_day p d) (person_day_df trips_clean)
      <-> exists r, In r trips_clean /\ person_dim_id r = p /\ daynum r = d)
  /\ NoDup (person_day_df trips_clean)
  /\ StronglySorted key_lt (map pd_key (person_day_df trips_clean)).
Proof.
  unfold person_day_df. split; [|split].
  - intros p d. rewrite in_map_iff. split.
    + intros [k [Hk Hin]]. injection Hk as <- <-.
      apply group_keys_In in Hin. destruct Hin as [r [Hr <-]].
      exists r. auto.
    + intros [r [Hr [<- <-]]]. exists (key_of r). split; [reflexivity|].
      apply group_keys_In. now exists r.
  - apply NoDup_map_injective.
    + intros [a b] [c e] H. injection H as -> ->. reflexivity.
    + apply sorted_NoDup, group_keys_sorted.
  - rewrite map_map.
    assert (E : map (fun x => pd_key (mk_person_day (fst x) (snd x)))
                    (group_keys trips_clean) = group_keys trips_clean).
    { rewrite <- (map_id (group_keys trips_clean)) at 2.
      apply map_ext. intros [a b]. reflexivity. }
    rewrite E. apply group_keys_sorted.
Qed.

(** *** Every trip is counted once *)

Lemma matches_key_of (k : key) (t : trip) :
  matches k t = true <-> key_of t = k.
Proof.
  destruct k as [p d]. unfold matches, key_of; simpl.
  rewrite andb_true_iff, !Z.eqb_eq. split.
  - intros [-> ->]. reflexivity.
  - intro H. injection H as -> ->. split; reflexivity.
Qed.

Lemma sum_nat_indicator (ks : list key) (t : trip) :
  NoDup ks -> In (key_of t) ks ->
  sum_nat (map (fun k => if matches k t then 1%nat else 0%nat) ks) = 1%nat.
Proof.
  induction 1 as [|k ks Hk _ IH]; intro Hin; [destruct Hin|].
  cbn [map sum_nat fold_right]. fold (sum_nat (map (fun k => if matches k t then 1%nat else 0%nat) ks)).
  destruct (matches k t) eqn:E.
  - apply matches_key_of in E. subst k.
    assert (Hz : sum_nat (map (fun k => if matches k t then 1%nat else 0%nat) ks)
                 = 0%nat).
    { clear IH Hin. induction ks as [|k ks IHk]; [reflexivity|].
      cbn [map sum_nat fold_right].
      fold (sum_nat (map (fun k => if matches k t then 1%nat else 0%nat) ks)).
      destruct (matches k t) eqn:E.
      - apply matches_key_of in E. subst k. exfalso. apply Hk. now left.
      - rewrite IHk; [reflexivity|]. intro H. apply Hk. now right. }
    rewrite Hz. reflexivity.
  - destruct Hin as [-> | Hin].
    + assert (matches (key_of t) t = true) by now apply matches_key_of.
      congruence.
    + now rewrite IH.
Qed.

Lemma count_by_key (ks : list key) (t : table) :
  NoDup ks ->
  (forall r, In r t -> In (key_of r) ks) ->
  sum_nat (map (fun k => List.length (filter (matches k) t)) ks)
  = List.length t.
Proof.
  intros Hnd. induction t as [|r t IH]; intro Hcov.
  - cbn [filter List.length]. induction ks; [reflexivity|].
    cbn [map sum_nat fold_right].
    fold (sum_nat (map (fun _ : key => 0%nat) ks)).
    inversion Hnd; subst. now rewrite IHks.
  - assert (Hsplit : forall l,
               sum_nat (map (fun k => List.length (filter (matches k) (r :: t))) l)
               = (sum_nat (map (fun k => if matches k r then 1 else 0) l)
                  + sum_nat (map (fun k => List.length (filter (matches k) t)) l))%nat).
    { induction l as [|k l IHl]; [reflexivity|].
      cbn [map sum_nat fold_right].
      fold (sum_nat (map (fun k => List.length (filter (matches k) (r :: t))) l)).
      fold (sum_nat (map (fun k => if matches k r then 1%nat else 0%nat) l)).
      fold (sum_nat (map (fun k => List.length (filter (matches k) t)) l)).
      rewrite IHl. cbn [filter].
      destruct (matches k r); cbn [List.length]; lia. }
    rewrite Hsplit, IH, sum_nat_indicator; [reflexivity|assumption| |].
    + apply Hcov. now left.
    + intros r' Hr'. apply Hcov. now right.
Qed.

Lemma trips_day_person_matches (trips_clean : table) (k : key) :
  trips_day_person trips_clean (mk_person_day (fst k) (snd k))
  = filter (matches k) trips_clean.
Proof. reflexivity. Qed.

Lemma sum_nat_le (A : Type) (f g : A -> nat) (l : list A) :
  (forall x, In x l -> (f x <= g x)%nat) ->
  (sum_nat (map f l) <= sum_nat (map g l))%nat.
Proof.
  induction l as [|x l IH]; intro H; [apply Nat.le_refl|].
  cbn [map sum_nat fold_right]. fold (sum_nat (map f l)) (sum_nat (map g l)).
  pose proof (H x (or_introl eq_refl)).
  assert ((sum_nat (map f l) <= sum_nat (map g l))%nat).
  { apply IH. intros y Hy. apply H. now right. }
  lia.
Qed.

(** X9: every person-day of the table has at least one trip, the trip
    counts of the person-days add up to the number of rows of the cleaned
    table (each trip is counted in exactly one person-day), and the trip
    chains of all person-days together are no more than that. *)
Theorem person_days_partition_trips (trips_clean : table) :
  let rows := person_day_metrics trips_clean in
  Forall (fun row => (1 <= m_num_trips (snd row))%nat) rows
  /\ sum_nat (map (fun row => m_num_trips (snd row)) rows)
     = List.length trips_clean
  /\ (sum_nat (map (fun row => m_trip_chains (snd row)) rows)
      <= List.length trips_clean)%nat.
Proof.
  intro rows. unfold rows, person_day_metrics, person_day_df.
  rewrite !map_map. cbn [snd].
  assert (Hsum : sum_nat
                   (map (fun k => m_num_trips
                                    (mobility_metrics trips_clean
                                       (mk_person_day (fst k) (snd k))))
                        (group_keys trips_clean))
                 = List.length trips_clean).
  { unfold mobility_metrics. cbn [m_num_trips].
    erewrite map_ext; [|intro k; rewrite trips_day_person_matches; reflexivity].
    apply count_by_key.
    - apply sorted_NoDup, group_keys_sorted.
    - intros r Hr. apply group_keys_In. now exists r. }
  split; [|split].
  - apply Forall_forall. intros row Hrow. apply in_map_iff in Hrow.
    destruct Hrow as [k [<- Hk]]. cbn [snd].
    apply group_keys_In in Hk. destruct Hk as [r [Hr Hkey]].
    unfold mobility_metrics. cbn [m_num_trips].
    rewrite trips_day_person_matches.
    assert (Hin : In r (filter (matches k) trips_clean)).
    { apply filter_In. split; [assumption | now apply matches_key_of]. }
    destruct (filter (matches k) trips_clean); [destruct Hin | simpl; lia].
  - exact Hsum.
  - rewrite <- Hsum. apply sum_nat_le. intros k _.
    unfold mobility_metrics, walk_all. cbn [m_num_trips m_trip_chains].
    pose proof (fold_walk_chains
                  (trips_day_person trips_clean (mk_person_day (fst k) (snd k)))
                  walk_init) as H.
    simpl in H. exact H.
Qed.

(** *** Miles *)




(** *** Chains need a departure from home and a return *)

Lemma walk_step_leaves (w : walk) (r : trip) :
  (trip_chains (walk_step w r) + flag (walk_step w r)
   <= trip_chains w + flag w + (if leaves_home r then 1 else 0))%nat.
Proof.
  unfold walk_step, flag, leaves_home, str_ne.
  destruct (str_eq (origin_purpose r) "Went home"),
           (str_eq (dest_purpose r) "Went home"),
           (start_home w); simpl; lia.
Qed.

Lemma walk_step_comes (w : walk) (r : trip) :
  (trip_chains (walk_step w r)
   <= trip_chains w + (if comes_home r then 1 else 0))%nat.
Proof.
  unfold walk_step, comes_home, str_ne.
  destruct (str_eq (origin_purpose r) "Went home"),
           (str_eq (dest_purpose r) "Went home"),
           (start_home w); simpl; lia.
Qed.

Lemma fold_walk_bounds (rows : table) (w : walk) :
  (trip_chains (fold_left walk_step rows w) + flag (fold_left walk_step rows w)
   <= trip_chains w + flag w + count leaves_home rows)%nat
  /\ (trip_chains (fold_left walk_step rows w)
      <= trip_chains w + count comes_home rows)%nat.
Proof.
  revert w. induction rows as [|r rows IH]; intro w.
  - unfold count; simpl. lia.
  - destruct (IH (walk_step w r)) as [H1 H2].
    pose proof (walk_step_leaves w r). pose proof (walk_step_comes w r).
    unfold count in *. cbn [fold_left filter].
    destruct (leaves_home r), (comes_home r); cbn [List.length]; lia.
Qed.

(** X11: a person-day has no more trip chains than trips that leave home
    (origin purpose "Went home") and no more than trips that come home
    from elsewhere (destination purpose "Went home", origin purpose not). *)
Theorem chains_need_departure_and_return (trips_clean : table) (row : person_day) :
  let tdp := trips_day_person trips_clean row in
  let chains := m_trip_chains (mobility_metrics trips_clean row) in
  (chains <= count leaves_home tdp)%nat
  /\ (chains <= count comes_home tdp)%nat.
Proof.
  intros tdp chains. unfold chains, mobility_metrics, walk_all.
  cbn [m_trip_chains]. fold tdp.
  destruct (fold_walk_bounds tdp walk_init) as [H1 H2].
  unfold flag in H1. simpl in H1, H2.
  destruct (start_home (fold_left walk_step tdp walk_init)); lia.
Qed.

(** *** Outliers and the split by gender *)

Lemma with_gender_row (persons : list person) (row : person_day * metrics) :
  Forall (fun g => pdg_row g = row) (with_gender persons row).
Proof.
  unfold with_gender.
  destruct (filter _ persons) as [|p found]; [repeat constructor|].
  apply Forall_forall. intros g Hg. apply in_map_iff in Hg.
  destruct Hg as [q [<- _]]. reflexivity.
Qed.

Lemma filter_const {A : Type} (p : A -> bool) (l : list A) (b : bool) :
  Forall (fun x => p x = b) l -> filter p l = if b then l else [].
Proof.
  induction 1 as [|x l Hx _ IH]; simpl; [now destruct b|].
  rewrite Hx, IH. now destruct b.
Qed.

Lemma below_100_500 (v : Q) :
  Cleaner.Qltb v 100 = true -> Cleaner.Qltb v 500 = true.
Proof.
  rewrite !Cleaner.Qltb_lt. intro H.
  eapply Qlt_trans; [exact H | reflexivity].
Qed.

(** X12: the table that reaches the split by gender is the merge of the
    person-days with fewer than 100 vehicle miles: dropping at 500 miles
    first changes nothing, every person-day below 100 miles is there (at
    least once), and no person-day of 100 miles or more is. *)
Theorem outlier_filters_compose (l : list (person_day * metrics))
        (persons : list person) :
  person_day_df_clean l persons = merge_gender (vmt_below 100 l) persons
  /\ (forall g, In g (person_day_df_clean l persons) ->
                In (pdg_row g) l /\ m_vmt (snd (pdg_row g)) < 100)
  /\ (forall row, In row l -> m_vmt (snd row) < 100 ->
                  exists g, In g (person_day_df_clean l persons)
                            /\ pdg_row g = row).
Proof.
  assert (E : person_day_df_clean l persons
              = merge_gender (vmt_below 100 l) persons).
  { unfold person_day_df_clean, merge_gender, vmt_below.
    induction l as [|row l IH]; [reflexivity|].
    cbn [filter].
    destruct (Cleaner.Qltb (m_vmt (snd row)) 100) eqn:E100.
    - rewrite (below_100_500 _ E100). cbn [flat_map].
      rewrite filter_app, IH. f_equal.
      rewrite (filter_const _ _ true); [reflexivity|].
      eapply Forall_impl; [|apply with_gender_row].
      intros g ->. exact E100.
    - destruct (Cleaner.Qltb (m_vmt (snd row)) 500); [|exact IH].
      cbn [flat_map]. rewrite filter_app, IH.
      rewrite (filter_const _ _ false); [reflexivity|].
      eapply Forall_impl; [|apply with_gender_row].
      intros g ->. exact E100. }
  split; [exact E|]. split.
  - intros g Hg. rewrite E in Hg. unfold merge_gender in Hg.
    apply in_flat_map in Hg. destruct Hg as [row [Hrow Hg]].
    pose proof (with_gender_row persons row) as Hall.
    rewrite Forall_forall in Hall. rewrite (Hall g Hg).
    unfold vmt_below in Hrow. apply filter_In in Hrow.
    destruct Hrow as [Hin Hlt]. apply Cleaner.Qltb_lt in Hlt. auto.
  - intros row Hin Hlt. rewrite E.
    assert (Hne : with_gender persons row <> []).
    { unfold with_gender. destruct (filter _ persons); discriminate. }
    destruct (with_gender persons row) as [|g rest] eqn:Eg; [congruence|].
    exists g. split.
    + unfold merge_gender. apply in_flat_map. exists row. split.
      * unfold vmt_below. apply filter_In. split; [assumption|].
        now apply Cleaner.Qltb_lt.
      * rewrite Eg. now left.
    + pose proof (with_gender_row persons row) as Hall.
      rewrite Eg in Hall. now inversion Hall.
Qed.

(** X13: the female and the non-female table split the person-days: each
    row is in exactly one of them, their sizes add up, and a row whose
    gender is not known (no value in [persons], or no such person) is in
    the non-female table. *)
Theorem gender_split_is_partition (clean : list person_day_gender) :
  (List.length (person_day_df_clean_fem clean)
   + List.length (person_day_df_clean_nonfem clean)
   = List.length clean)%nat
  /\ (forall g, In g clean <->
                In g (person_day_df_clean_fem clean)
                \/ In g (person_day_df_clean_nonfem clean))
  /\ (forall g, In g (person_day_df_clean_fem clean) ->
                pdg_gender g = Some "Female"%string
                /\ ~ In g (person_day_df_clean_nonfem clean))
  /\ (forall g, In g clean -> pdg_gender g = None ->
                In g (person_day_df_clean_nonfem clean)).
Proof.
  unfold person_day_df_clean_fem, person_day_df_clean_nonfem, str_ne.
  split; [|split; [|split]].
  - induction clean as [|g l IH]; [reflexivity|]. cbn [filter].
    destruct (str_eq (pdg_gender g) "Female"); cbn [negb List.length]; lia.
  - intro g. rewrite !filter_In.
    destruct (str_eq (pdg_gender g) "Female"); simpl; tauto.
  - intros g Hg. apply filter_In in Hg. destruct Hg as [_ Hg]. split.
    + unfold str_eq in Hg. destruct (pdg_gender g) as [x|]; [|discriminate].
      apply String.eqb_eq in Hg. now subst x.
    + intro Hn. apply filter_In in Hn. destruct Hn as [_ Hn].
      rewrite Hg in Hn. discriminate.
  - intros g Hin Hnone. apply filter_In. split; [assumption|].
    rewrite Hnone. reflexivity.
Qed.

End PersonDays.

(** ** The location table *)

Module Locations.

Import Py Gyration.

(** [x <= y] on floats: false when either side is NaN. *)
Definition float_le (x y : float) : bool :=
  match x, y with
  | Fin a, Fin b => Qle_bool a b
  | _, _ => false
  end.

(** The entries of [washington_bbox]. *)
Definition lat_min : Q := 45.5435.
Definition lat_max : Q := 49.0025.
Definition lon_min : Q := -124.848974.
Definition lon_max : Q := -116.916197.

Definition are_points_inside_washington
           (origin_lat origin_lng dest_lat dest_lng : float) : bool :=
  (float_le (Fin lat_min) origin_lat && float_le origin_lat (Fin lat_max))
  && (float_le (Fin lon_min) origin_lng && float_le origin_lng (Fin lon_max))
  && (float_le (Fin lat_min) dest_lat && float_le dest_lat (Fin lat_max))
  && (float_le (Fin lon_min) dest_lng && float_le dest_lng (Fin lon_max)).

(** [gdf_od.dropna(subset=['origin_lng', 'origin_lat', 'dest_lng', 'dest_lat'])] *)
Definition dropna_coords (od : list od_row) : list od_row :=
  filter (fun o => negb (is_nan (od_origin_lng o))
                   && negb (is_nan (od_origin_lat o))
                   && negb (is_nan (od_dest_lng o))
                   && negb (is_nan (od_dest_lat o))) od.

Definition Both_Points_Inside_Washington (o : od_row) : bool :=
  are_points_inside_washington (od_origin_lat o) (od_origin_lng o)
                               (od_dest_lat o) (od_dest_lng o).

(** The cell that builds [gdf_od]: rows with a missing coordinate are
    dropped, then the rows with both points in the box are kept. *)
Definition gdf_od (od : list od_row) : list od_row :=
  filter Both_Points_Inside_Washington (dropna_coords od).

(** A latitude, or a longitude, within the box. *)
Definition lat_in_box (x : float) : Prop :=
  exists q, x = Fin q /\ lat_min <= q <= lat_max.

Definition lon_in_box (x : float) : Prop :=
  exists q, x = Fin q /\ lon_min <= q <= lon_max.

Definition od_key (o : od_row) : Z * Z := (od_trip_id o, od_household_id o).

Definition trip_key (t : trip) : Z * Z := (trip_id t, household_id t).

Definition no_location (row : trip_od) : Prop :=
  origin_lat row = NaN /\ origin_lng row = NaN
  /\ dest_lat row = NaN /\ dest_lng row = NaN.

Definition located_by (o : od_row) (row : trip_od) : Prop :=
  od_key o = trip_key (the_trip row)
  /\ origin_lat row = od_origin_lat o /\ origin_lng row = od_origin_lng o
  /\ dest_lat row = od_dest_lat o /\ dest_lng row = od_dest_lng o.

Lemma between_iff (lo hi : Q) (x : float) :
  float_le (Fin lo) x && float_le x (Fin hi) = true
  <-> exists q, x = Fin q /\ lo <= q <= hi.
Proof.
  destruct x as [|q]; simpl.
  - split; [discriminate|]. intros [q [H _]]. discriminate.
  - rewrite andb_true_iff, !Qle_bool_iff. split.
    + intros [H1 H2]. now exists q.
    + intros [q' [Hq H]]. injection Hq as <-. exact H.
Qed.

Lemma inside_iff (o : od_row) :
  Both_Points_Inside_Washington o = true
  <-> lat_in_box (od_origin_lat o) /\ lon_in_box (od_origin_lng o)
      /\ lat_in_box (od_dest_lat o) /\ lon_in_box (od_dest_lng o).
Proof.
  unfold Both_Points_Inside_Washington, are_points_inside_washington,
    lat_in_box, lon_in_box.
  rewrite <- !between_iff. rewrite !andb_true_iff. tauto.
Qed.

Lemma inside_not_nan (o : od_row) :
  Both_Points_Inside_Washington o = true ->
  negb (is_nan (od_origin_lng o)) && negb (is_nan (od_origin_lat o))
  && negb (is_nan (od_dest_lng o)) && negb (is_nan (od_dest_lat o)) = true.
Proof.
  intro H. apply inside_iff in H.
  destruct H as [[a [-> _]] [[b [-> _]] [[c [-> _]] [d [-> _]]]]].
  reflexivity.
Qed.

(** X14: a row is in [gdf_od] exactly when it is in [od] and its four
    coordinates are numbers within the Washington box; the drop of the
    rows with a missing coordinate before the test changes nothing, since
    a NaN passes no comparison; exchanging origin and destination does
    not change the test. *)
Theorem gdf_od_rows (od : list od_row) :
  (forall o, In o (gdf_od od)
             <-> In o od
                 /\ lat_in_box (od_origin_lat o) /\ lon_in_box (od_origin_lng o)
                 /\ lat_in_box (od_dest_lat o) /\ lon_in_box (od_dest_lng o))
  /\ gdf_od od = filter Both_Points_Inside_Washington od
  /\ (forall olat olng dlat dlng,
         are_points_inside_washington olat olng dlat dlng
         = are_points_inside_washington dlat dlng olat olng).
Proof.
  assert (E : gdf_od od = filter Both_Points_Inside_Washington od).
  { unfold gdf_od, dropna_coords. induction od as [|o od IH]; [reflexivity|].
    cbn [filter].
    destruct (Both_Points_Inside_Washington o) eqn:Ein.
    - rewrite (inside_not_nan o Ein). cbn [filter]. rewrite Ein. now f_equal.
    - destruct (_ && _); [|exact IH]. cbn [filter]. now rewrite Ein. }
  split; [|split].
  - intro o. rewrite E, filter_In, inside_iff. reflexivity.
  - exact E.
  - intros. unfold are_points_inside_washington.
    repeat match goal with |- context [float_le ?a ?b] =>
             destruct (float_le a b) end; reflexivity.
Qed.

Lemma at_most_one_match (od : list od_row) (k : Z * Z) :
  NoDup (map od_key od) ->
  (List.length (filter (fun o => (od_trip_id o =? fst k)%Z
                                 && (od_household_id o =? snd k)%Z) od)
   <= 1)%nat.
Proof.
  induction od as [|o od IH]; intro H; [simpl; lia|].
  inversion H as [|x l Hnot Hnd]; subst. cbn [filter].
  destruct ((od_trip_id o =? fst k)%Z && (od_household_id o =? snd k)%Z) eqn:E.
  - cbn [List.length].
    destruct (filter _ od) as [|o' rest] eqn:Ef; [simpl; lia|].
    exfalso. apply Hnot.
    assert (Hin : In o' (filter (fun o => (od_trip_id o =? fst k)%Z
                                         && (od_household_id o =? snd k)%Z) od)).
    { rewrite Ef. now left. }
    apply filter_In in Hin. destruct Hin as [Hin Ho'].
    apply in_map_iff. exists o'. split; [|assumption].
    apply andb_true_iff in E. apply andb_true_iff in Ho'.
    rewrite !Z.eqb_eq in *. unfold od_key.
    destruct E as [-> ->], Ho' as [-> ->]. reflexivity.
  - now apply IH.
Qed.

(** X15: the left merge loses no trip and keeps the trips in their
    order; a row of [trips_od] has the coordinates of a location row with
    its trip's identifiers, or four NaN when [od] has no such row; when
    no two rows of [od] share their identifiers, [trips_od] has exactly
    the trips of [trips_clean], once each. *)
Theorem merge_left_keeps_trips (trips_clean : table) (od : list od_row) :
  (forall t, In t trips_clean ->
             exists row, In row (merge_left trips_clean od) /\ the_trip row = t)
  /\ (forall row, In row (merge_left trips_clean od) ->
                  In (the_trip row) trips_clean
                  /\ ((exists o, In o od /\ located_by o row)
                      \/ (no_location row
                          /\ forall o, In o od ->
                                       od_key o <> trip_key (the_trip row))))
  /\ (NoDup (map od_key od) ->
      map the_trip (merge_left trips_clean od) = trips_clean).
Proof.
  unfold merge_left. split; [|split].
  - intros t Ht.
    destruct (filter (fun o => (od_trip_id o =? trip_id t)%Z
                               && (od_household_id o =? household_id t)%Z) od)
      as [|o found] eqn:Ef.
    + exists (mk_trip_od t NaN NaN NaN NaN). split; [|reflexivity].
      apply in_flat_map. exists t. split; [assumption|]. rewrite Ef. now left.
    + exists (mk_trip_od t (od_origin_lat o) (od_origin_lng o)
                         (od_dest_lat o) (od_dest_lng o)).
      split; [|reflexivity].
      apply in_flat_map. exists t. split; [assumption|]. rewrite Ef. now left.
  - intros row Hrow. apply in_flat_map in Hrow. destruct Hrow as [t [Ht Hrow]].
    destruct (filter (fun o => (od_trip_id o =? trip_id t)%Z
                               && (od_household_id o =? household_id t)%Z) od)
      as [|o found] eqn:Ef.
    + destruct Hrow as [<- | []]. split; [assumption|]. right.
      split; [repeat split|].
      intros o Ho Hkey. cbn [the_trip] in Hkey.
      assert (Hin : In o (filter (fun o => (od_trip_id o =? trip_id t)%Z
                                           && (od_household_id o =? household_id t)%Z) od)).
      { apply filter_In. split; [assumption|].
        unfold od_key, trip_key in Hkey. injection Hkey as -> ->.
        now rewrite !Z.eqb_refl. }
      rewrite Ef in Hin. destruct Hin.
    + apply in_map_iff in Hrow. destruct Hrow as [o' [<- Ho']].
      split; [assumption|]. left. exists o'.
      rewrite <- Ef in Ho'. apply filter_In in Ho'. destruct Ho' as [Hin Hk].
      split; [assumption|]. unfold located_by. cbn.
      apply andb_true_iff in Hk. rewrite !Z.eqb_eq in Hk.
      destruct Hk as [H1 H2]. unfold od_key, trip_key. rewrite H1, H2.
      repeat split.
  - intro Hnd. induction trips_clean as [|t l IH]; [reflexivity|].
    cbn [flat_map]. rewrite map_app, IH. 
    pose proof (at_most_one_match od (trip_id t, household_id t) Hnd) as Hlen.
    cbn [fst snd] in Hlen.
    destruct (filter (fun o => (od_trip_id o =? trip_id t)%Z
                               && (od_household_id o =? household_id t)%Z) od)
      as [|o [|o2 found]]; cbn in *; try reflexivity. lia.
Qed.

Lemma merge_left_keeps_trips_witness :
  let trips := [Mobility.leg 1 1 "Went home" "Went to work";
                Mobility.leg 2 1 "Went home" "Went to work"] in
  let od := [mk_od_row 0 0 (Fin 47.6) (Fin (-122.3)) (Fin 47.7) (Fin (-122.2))] in
  map the_trip (merge_left trips od) = trips.
Proof.
  intros trips od.
  apply (merge_left_keeps_trips trips od).
  repeat constructor. intros [].
Defined.

End Locations.

(** ** More on the radius of gyration *)

Module Dispersion.

Import Py Gyration.

(** The four coordinates of the row are numbers. *)
Definition located (r : trip_od) : bool :=
  valid_pair (origin_lat r) (origin_lng r)
  && valid_pair (dest_lat r) (dest_lng r).

(** [x] is listed after [y] and is not equal to it. *)
Definition differs {A : Type} (eqb : A -> A -> bool) (y x : A) : Prop :=
  eqb x y = false.

(** *** When [rog] returns *)

Section Outcome.

Variable geodesic_miles : point -> point -> result R.

Lemma rog_Ok_inv (points : list point) (centroid : float * float) (v : R) :
  rog geodesic_miles points centroid = Ok v ->
  exists ds,
    Forall2 (fun p d => geodesic_miles p (snd centroid, fst centroid) = Ok d)
            points ds
    /\ points <> []
    /\ v = sqrt (mean_of_squares ds).
Proof.
  intro H. unfold rog in H.
  destruct (for_each _ points) as [ds|] eqn:Ed; cbn [bind] in H;
    [|discriminate].
  pose proof (CleanedTable.for_each_Ok_inv _ _ _ Ed) as Hds.
  assert (Hne : points <> []).
  { intros ->. inversion Hds; subst. discriminate. }
  exists ds. split; [assumption|]. split; [assumption|].
  pose proof (rog_value geodesic_miles points centroid ds Hne Hds) as Hv.
  unfold rog in Hv. rewrite Ed in Hv. cbn [bind] in Hv. congruence.
Qed.

End Outcome.

(** X16: [rog] returns a radius exactly when there is at least one point
    and geopy gives a distance for every point; on no point at all it
    raises ZeroDivisionError, whatever geopy would do. *)
Theorem rog_returns_iff (geodesic_miles : point -> point -> result R)
        (points : list point) (centroid : float * float) :
  ((exists v, rog geodesic_miles points centroid = Ok v)
   <-> points <> []
       /\ forall p, In p points ->
                    exists d, geodesic_miles p (snd centroid, fst centroid) = Ok d)
  /\ rog geodesic_miles [] centroid = Raise ZeroDivisionError.
Proof.
  split; [|reflexivity]. split.
  - intros [v Hv].
    destruct (rog_Ok_inv geodesic_miles points centroid v Hv)
      as [ds [Hds [Hne _]]].
    split; [assumption|]. intros p Hp.
    apply (CleanedTable.for_each_Ok_all
             (fun p => geodesic_miles p (snd centroid, fst centroid))
             points ds); [|assumption].
    now apply for_each_Forall2.
  - intros [Hne Hall].
    destruct (CleanedTable.for_each_all_Ok
                (fun p => geodesic_miles p (snd centroid, fst centroid))
                points Hall) as [ds Hds].
    exists (sqrt (mean_of_squares ds)).
    apply rog_value; [assumption|].
    now apply CleanedTable.for_each_Ok_inv.
Qed.

(** *** A place seen again *)

Lemma set_add_covered {A : Type} (eqb : A -> A -> bool) (x : A) (s : list A) :
  existsb (eqb x) s = true -> set_add eqb x s = s.
Proof.
  intro H. unfold set_add. now rewrite H.
Qed.

Lemma set_add_keeps {A : Type} (eqb : A -> A -> bool) (x y : A) (s : list A) :
  existsb (eqb x) s = true -> existsb (eqb x) (set_add eqb y s) = true.
Proof.
  intro H. unfold set_add. destruct (existsb (eqb y) s); [assumption|].
  rewrite existsb_app, H. reflexivity.
Qed.

Lemma set_add_has {A : Type} (eqb : A -> A -> bool) (x : A) (s : list A) :
  eqb x x = true -> existsb (eqb x) (set_add eqb x s) = true.
Proof.
  intro H. unfold set_add. destruct (existsb (eqb x) s) eqn:E; [assumption|].
  rewrite existsb_app. simpl. rewrite H. apply orb_true_r.
Qed.

Lemma fold_add_covers {A : Type} (eqb : A -> A -> bool) (x : A) (l s : list A) :
  eqb x x = true ->
  existsb (eqb x) s = true \/ In x l ->
  existsb (eqb x) (fold_left (fun s y => set_add eqb y s) l s) = true.
Proof.
  intro Hx. revert s. induction l as [|y l IH]; intros s H; simpl.
  - destruct H as [H | []]. assumption.
  - apply IH. destruct H as [H | [-> | H]].
    + left. now apply set_add_keeps.
    + left. now apply set_add_has.
    + now right.
Qed.

Lemma round3_finite (x : float) :
  is_nan x = false -> float_eqb (round3 x) (round3 x) = true.
Proof.
  destruct x; [discriminate|]. intros _. simpl. apply Qeq_bool_refl.
Qed.

Lemma collect_again (rows : list trip_od) (r : trip_od) :
  In r rows -> located r = true ->
  collect (fold_left collect rows no_uniques) r
  = fold_left collect rows no_uniques.
Proof.
  intros Hin Hloc. unfold located, valid_pair in Hloc.
  apply andb_true_iff in Hloc. destruct Hloc as [Ho' Hd'].
  apply andb_true_iff in Ho'. destruct Ho' as [N1 N2].
  apply andb_true_iff in Hd'. destruct Hd' as [N3 N4].
  apply negb_true_iff in N1, N2, N3, N4.
  destruct (collect_uniq rows) as [Hp [Hlat Hlng]].
  assert (Ho : In (round3 (origin_lat r), round3 (origin_lng r))
                  (rounded_points rows)).
  { unfold rounded_points. apply in_flat_map. exists r. split; [assumption|].
    now left. }
  assert (Hd : In (round3 (dest_lat r), round3 (dest_lng r))
                  (rounded_points rows)).
  { unfold rounded_points. apply in_flat_map. exists r. split; [assumption|].
    right. now left. }
  destruct (fold_left collect rows no_uniques) as [lats lngs pts] eqn:Eu.
  unfold collect. cbv zeta.
  cbn [unique_lat unique_lng unique_pts] in *.
  assert (C1 : existsb (float_eqb (round3 (origin_lat r))) lats = true).
  { rewrite Hlat. apply fold_add_covers; [now apply round3_finite|].
    right. apply in_map_iff. now exists (round3 (origin_lat r), round3 (origin_lng r)). }
  assert (C2 : existsb (float_eqb (round3 (dest_lat r))) lats = true).
  { rewrite Hlat. apply fold_add_covers; [now apply round3_finite|].
    right. apply in_map_iff. now exists (round3 (dest_lat r), round3 (dest_lng r)). }
  assert (C3 : existsb (float_eqb (round3 (origin_lng r))) lngs = true).
  { rewrite Hlng. apply fold_add_covers; [now apply round3_finite|].
    right. apply in_map_iff. now exists (round3 (origin_lat r), round3 (origin_lng r)). }
  assert (C4 : existsb (float_eqb (round3 (dest_lng r))) lngs = true).
  { rewrite Hlng. apply fold_add_covers; [now apply round3_finite|].
    right. apply in_map_iff. now exists (round3 (dest_lat r), round3 (dest_lng r)). }
  assert (C5 : existsb (point_eqb (round3 (origin_lat r), round3 (origin_lng r)))
                       pts = true).
  { rewrite Hp. apply fold_add_covers; [|now right].
    unfold point_eqb; cbn [fst snd]. now rewrite !round3_finite. }
  assert (C6 : existsb (point_eqb (round3 (dest_lat r), round3 (dest_lng r)))
                       pts = true).
  { rewrite Hp. apply fold_add_covers; [|now right].
    unfold point_eqb; cbn [fst snd]. now rewrite !round3_finite. }
  rewrite (set_add_covered _ _ _ C1), (set_add_covered _ _ _ C2),
    (set_add_covered _ _ _ C3), (set_add_covered _ _ _ C4),
    (set_add_covered _ _ _ C5), (set_add_covered _ _ _ C6).
  reflexivity.
Qed.

(** X18: a trip of the table, all of whose coordinates are numbers, can
    be appended once more without changing anybody's radius: the places
    of a person count once, however often they are visited. *)
Theorem revisit_changes_nothing
        (geodesic_miles : point -> point -> result R)
        (trips_od : list trip_od) (r : trip_od) (person_id : Z) :
  In r trips_od ->
  located r = true ->
  rog_centroid_df geodesic_miles (trips_od ++ [r]) person_id
  = rog_centroid_df geodesic_miles trips_od person_id.
Proof.
  intros Hin Hloc. unfold rog_centroid_df, person_trips_df.
  rewrite filter_app. cbn [filter].
  destruct (person_dim_id (the_trip r) =? person_id)%Z eqn:E.
  - rewrite fold_left_app. cbn [fold_left].
    rewrite collect_again; [reflexivity| |assumption].
    apply filter_In. now split.
  - now rewrite app_nil_r.
Qed.

Lemma revisit_changes_nothing_witness :
  rog_centroid_df taxicab
                  (sample_trips_od
                   ++ [place 3 (Fin 47.7) (Fin (-122.2)) (Fin 47.6065)
                             (Fin (-122.3321))]) 3
  = rog_centroid_df taxicab sample_trips_od 3.
Proof.
  apply (revisit_changes_nothing taxicab sample_trips_od).
  - right. right. right. now left.
  - reflexivity.
Defined.

(** *** The sets hold each value once *)

Lemma distinct_snoc {A : Type} (rel : A -> A -> Prop) (s : list A) (x : A) :
  ForallOrdPairs rel s -> Forall (fun y => rel y x) s ->
  ForallOrdPairs rel (s ++ [x]).
Proof.
  induction 1 as [|a l Ha _ IH]; intro Hx; simpl.
  - constructor; constructor.
  - inversion Hx as [|? ? Hax Hlx]; subst. constructor; [|now apply IH].
    apply Forall_app. split; [assumption | now constructor].
Qed.

Lemma set_add_distinct {A : Type} (eqb : A -> A -> bool) (x : A) (s : list A) :
  ForallOrdPairs (differs eqb) s ->
  ForallOrdPairs (differs eqb) (set_add eqb x s).
Proof.
  intro H. unfold set_add. destruct (existsb (eqb x) s) eqn:E; [assumption|].
  apply distinct_snoc; [assumption|].
  apply Forall_forall. intros y Hy. unfold differs.
  destruct (eqb x y) eqn:Exy; [|reflexivity].
  assert (existsb (eqb x) s = true) by (apply existsb_exists; eauto).
  congruence.
Qed.

Lemma uniq_distinct {A : Type} (eqb : A -> A -> bool) (l : list A) :
  ForallOrdPairs (differs eqb) (uniq eqb l).
Proof.
  unfold uniq.
  assert (H : forall s, ForallOrdPairs (differs eqb) s ->
                        ForallOrdPairs (differs eqb)
                          (fold_left (fun s x => set_add eqb x s) l s)).
  { induction l as [|x l IH]; intros s Hs; simpl; [assumption|].
    apply IH. now apply set_add_distinct. }
  apply H. constructor.
Qed.

Lemma uniq_length {A : Type} (eqb : A -> A -> bool) (l : list A) :
  (List.length (uniq eqb l) <= List.length l)%nat.
Proof.
  unfold uniq.
  assert (H : forall s, (List.length (fold_left (fun s x => set_add eqb x s) l s)
                         <= List.length s + List.length l)%nat).
  { induction l as [|x l IH]; intro s; simpl; [lia|].
    specialize (IH (set_add eqb x s)).
    assert ((List.length (set_add eqb x s) <= S (List.length s))%nat).
    { unfold set_add. destruct (existsb (eqb x) s); [lia|].
      rewrite length_app. simpl. lia. }
    lia. }
  apply (H []).
Qed.

Lemma rounded_points_length (rows : list trip_od) :
  List.length (rounded_points rows) = (2 * List.length rows)%nat.
Proof.
  unfold rounded_points. induction rows as [|r rows IH]; [reflexivity|].
  cbn [flat_map app List.length]. rewrite IH. lia.
Qed.

(** X20: the three sets the loop fills hold no value twice (no listed
    point or coordinate is equal to one listed before it); there are at
    most two unique points per trip, and at least one as soon as the
    person has a trip. *)
Theorem unique_sets_are_sets (rows : list trip_od) :
  let u := fold_left collect rows no_uniques in
  ForallOrdPairs (differs point_eqb) (unique_pts u)
  /\ ForallOrdPairs (differs float_eqb) (unique_lat u)
  /\ ForallOrdPairs (differs float_eqb) (unique_lng u)
  /\ (List.length (unique_pts u) <= 2 * List.length rows)%nat
  /\ (rows <> [] -> (1 <= List.length (unique_pts u))%nat).
Proof.
  intro u. unfold u.
  destruct (collect_uniq rows) as [Hp [Hlat Hlng]].
  rewrite Hp, Hlat, Hlng.
  split; [apply uniq_distinct|]. split; [apply uniq_distinct|].
  split; [apply uniq_distinct|]. split.
  - rewrite <- rounded_points_length. apply uniq_length.
  - intro Hne. destruct rows as [|r rows']; [congruence|].
    cbn [rounded_points flat_map app].
    destruct (uniq point_eqb _) eqn:E; [|simpl; lia].
    exfalso. exact (uniq_nonempty _ _ _ E).
Qed.

(** *** A person without location rows *)

Lemma merge_left_unmatched (trips_clean : table) (od : list od_row) (row : trip_od) :
  In row (merge_left trips_clean od) ->
  In (the_trip row) trips_clean
  /\ ((forall o, In o od ->
                 Locations.od_key o <> Locations.trip_key (the_trip row)) ->
      valid_pair (origin_lat row) (origin_lng row) = false).
Proof.
  unfold merge_left. intro Hrow.
  apply in_flat_map in Hrow. destruct Hrow as [t [Ht Hrow]].
  destruct (filter (fun o => (od_trip_id o =? trip_id t)%Z
                             && (od_household_id o =? household_id t)%Z) od)
    as [|o found] eqn:Ef.
  - destruct Hrow as [<- | []]. split; [assumption | reflexivity].
  - apply in_map_iff in Hrow. destruct Hrow as [o' [<- Ho']].
    split; [assumption|]. intro Hno. exfalso.
    rewrite <- Ef in Ho'. apply filter_In in Ho'. destruct Ho' as [Hin Hk].
    apply (Hno o' Hin). cbn [the_trip].
    apply andb_true_iff in Hk. rewrite !Z.eqb_eq in Hk.
    destruct Hk as [H1 H2].
    unfold Locations.od_key, Locations.trip_key. now rewrite H1, H2.
Qed.

(** X22: geopy refusing NaN coordinates, a person none of whose trips
    has a row in the location table gets no radius (absent, not 0); so
    does a person without any trip. *)
Theorem unlocated_person_has_no_radius
        (geodesic_miles : point -> point -> result R)
        (trips_clean : table) (od : list od_row) (person_id : Z) :
  (forall p c, valid_pair (fst c) (snd c) = false ->
               exists e, geodesic_miles p c = Raise e) ->
  (forall t o, In t trips_clean -> person_dim_id t = person_id -> In o od ->
               Locations.od_key o <> Locations.trip_key t) ->
  rog_centroid_df geodesic_miles (merge_left trips_clean od) person_id = None.
Proof.
  intros Hgeo Hno. apply (no_valid_pair_absent _ _ _ Hgeo).
  intros row Hrow. unfold person_trips_df in Hrow.
  apply filter_In in Hrow. destruct Hrow as [Hrow Hp].
  apply Z.eqb_eq in Hp.
  destruct (merge_left_unmatched trips_clean od row Hrow) as [Hin Hnan].
  apply Hnan. intros o Ho. now apply (Hno (the_trip row) o).
Qed.

Lemma unlocated_person_has_no_radius_witness :
  let trips := [Mobility.leg 1 1 "Went home" "Went to work";
                Mobility.leg 2 1 "Went home" "Went to work"] in
  let od := [mk_od_row 5 0 (Fin 47.6) (Fin (-122.3)) (Fin 47.7) (Fin (-122.2))] in
  rog_centroid_df taxicab (merge_left trips od) 1 = None.
Proof.
  intros trips od.
  apply (unlocated_person_has_no_radius taxicab trips od 1).
  - exact taxicab_refuses_nan.
  - intros t o [<- | [<- | []]] Hp [<- | []]; discriminate.
Defined.

End Dispersion.
